(** * Locket: the lock handler, the locket configuration and the lock runner

    A shallow embedding of [handlers/handler.go] and of
    [cmd/locket/config/config.go], with the collaborators they reach through
    interfaces ([db.LockDB], [expiration.LockPick], the logger, the file
    system and [encoding/json]) kept as interfaces, and of the client-side
    lock runner that [lock/lock_test.go] exercises. *)

From Stdlib Require Import ZArith String List Lia.
From stdpp Require Import base option list gmap strings pretty.

Local Open Scope Z_scope.

(* ===================================================================== *)
(** ** Package [models]: wire messages and error values                   *)
(* ===================================================================== *)

Module models.

(** Modelled from the spec: the message declarations of package [models]
    are not part of the sources at hand.  The fields are those of the
    data model (key, owner, value, type) and of the RPC table. *)
Record Resource := mkResource {
  Key : string;
  Owner : string;
  Value : string;
  Type_ : string
}.

(** Modelled from the spec: the error values of package [models] are not
    part of the sources at hand.  [ErrInvalidTTL] is the one the handler
    names; the others are the kinds the store contract lists, and
    [errors_New] stands for any other Go [error] (a transport or SQL
    failure, or the [errors.New] of a test). *)
Inductive error :=
| ErrInvalidTTL
| ErrLockCollision
| ErrResourceNotFound
| ErrNotOwner
| errors_New (msg : string).

(** Messages travel as pointers: a [*Resource] is [None] when nil. *)
Record LockRequest := mkLockRequest {
  LockRequest_Resource : option Resource;
  LockRequest_TtlInSeconds : Z            (* int64 *)
}.
Record LockResponse := mkLockResponse { }.

Record ReleaseRequest := mkReleaseRequest {
  ReleaseRequest_Resource : option Resource
}.
Record ReleaseResponse := mkReleaseResponse { }.

Record FetchRequest := mkFetchRequest { FetchRequest_Key : string }.
Record FetchResponse := mkFetchResponse {
  FetchResponse_Resource : option Resource
}.

(** Modelled from the spec: the request of FetchAll carries a
    [type_filter] string in the RPC table; the handler never reads it. *)
Record FetchAllRequest := mkFetchAllRequest { TypeFilter : string }.
Record FetchAllResponse := mkFetchAllResponse {
  Resources : list (option Resource)
}.

Inductive Request :=
| ReqLock (r : LockRequest)
| ReqRelease (r : ReleaseRequest)
| ReqFetch (r : FetchRequest)
| ReqFetchAll (r : FetchAllRequest).

#[global] Instance Resource_eq_dec : EqDecision Resource.
Proof. solve_decision. Defined.
#[global] Instance error_eq_dec : EqDecision error.
Proof. solve_decision. Defined.

End models.

(* ===================================================================== *)
(** ** Package [db]: the lock record and the store interface              *)
(* ===================================================================== *)

Module db.

(** Modelled from the spec: the declaration of [db.Lock] is not part of the
    sources at hand.  A row of the store is the resource (a pointer, which
    the handler reads as [lock.Resource]) with its lifetime and version
    columns. *)
Record Lock := mkLock {
  Resource : option models.Resource;
  TtlInSeconds : Z;
  ModifiedIndex : Z;
  ModifiedId : string
}.

#[global] Instance Lock_eq_dec : EqDecision Lock.
Proof. solve_decision. Defined.

(** The interface [db.LockDB], with the methods the handler calls and the
    arguments it passes.  A call may change
    the store, so every method returns the store it leaves behind; a Go
    result pair [(value, err)] is a pair of options.  The logger handed to
    each method is the store's own business and is part of [D]. *)
Class LockDB (D : Type) := {
  Lock_ : D -> option models.Resource -> Z ->
          D * (option Lock * option models.error);
  Release : D -> option models.Resource -> D * option models.error;
  Fetch : D -> string -> D * (option Lock * option models.error);
  FetchAll : D -> D * (list (option Lock) * option models.error)
}.

End db.

(* ===================================================================== *)
(** ** Package [expiration]: the scheduler interface                      *)
(* ===================================================================== *)

Module expiration.

Class LockPick (P : Type) := {
  RegisterTTL : P -> option db.Lock -> P
}.

End expiration.

(* ===================================================================== *)
(** ** Package [handlers]                                                 *)
(* ===================================================================== *)

Module handlers.
Import models.

(** One line written through a lager session: the session name, the data
    the session was opened with, and the message. *)
Record LogLine := mkLogLine {
  log_session : string;
  log_data : string * Request;
  log_message : string
}.

(** The lines a handler writes around its body. *)
Definition started (session : string) (data : string * Request) : LogLine :=
  mkLogLine session data "started".
Definition complete (session : string) (data : string * Request) : LogLine :=
  mkLogLine session data "complete".

(** The calls a handler makes on its two collaborators, with their
    arguments and results, in the order they happen. *)
Inductive Call :=
| CallDBLock (r : option Resource) (ttl : Z)
             (out : option db.Lock * option error)
| CallDBRelease (r : option Resource) (out : option error)
| CallDBFetch (key : string) (out : option db.Lock * option error)
| CallDBFetchAll (out : list (option db.Lock) * option error)
| CallRegisterTTL (l : option db.Lock).

Section Handler.
Context {D P : Type} `{!db.LockDB D} `{!expiration.LockPick P}.

(** What a [locketHandler] holds ([logger], [db], [lockPick]), with the
    record of the calls made so far. *)
Record locketHandler := mkHandler {
  logger : list LogLine;
  db_ : D;
  lockPick : P;
  calls : list Call
}.

Definition NewLocketHandler (l : list LogLine) (d : D) (p : P)
  : locketHandler :=
  {| logger := l; db_ := d; lockPick := p; calls := [] |}.

(** A handler body: it threads the handler's state and either returns
    or panics ([None]: a nil pointer was dereferenced). *)
Definition M (A : Type) : Type := locketHandler -> option A * locketHandler.

Definition ret {A} (a : A) : M A := fun h => (Some a, h).

Definition bind {A B} (m : M A) (k : A -> M B) : M B :=
  fun h => match m h with
           | (Some a, h') => k a h'
           | (None, h') => (None, h')
           end.

Definition panic {A} : M A := fun h => (None, h).

(** [defer d] around a body: [d] runs when the body is left, whether it
    returned or panicked. *)
Definition defer {A} (d : M unit) (body : M A) : M A :=
  fun h => let '(r, h') := body h in (r, snd (d h')).

Definition Info (session : string) (data : string * Request)
           (msg : string) : M unit :=
  fun h => (Some tt,
            {| logger := logger h ++ [mkLogLine session data msg];
               db_ := db_ h; lockPick := lockPick h; calls := calls h |}).

Definition db_Lock (r : option Resource) (ttl : Z)
  : M (option db.Lock * option error) :=
  fun h => let '(d, out) := db.Lock_ (db_ h) r ttl in
           (Some out,
            {| logger := logger h; db_ := d; lockPick := lockPick h;
               calls := calls h ++ [CallDBLock r ttl out] |}).

Definition db_Release (r : option Resource) : M (option error) :=
  fun h => let '(d, out) := db.Release (db_ h) r in
           (Some out,
            {| logger := logger h; db_ := d; lockPick := lockPick h;
               calls := calls h ++ [CallDBRelease r out] |}).

Definition db_Fetch (key : string) : M (option db.Lock * option error) :=
  fun h => let '(d, out) := db.Fetch (db_ h) key in
           (Some out,
            {| logger := logger h; db_ := d; lockPick := lockPick h;
               calls := calls h ++ [CallDBFetch key out] |}).

Definition db_FetchAll : M (list (option db.Lock) * option error) :=
  fun h => let '(d, out) := db.FetchAll (db_ h) in
           (Some out,
            {| logger := logger h; db_ := d; lockPick := lockPick h;
               calls := calls h ++ [CallDBFetchAll out] |}).

Definition lockPick_RegisterTTL (l : option db.Lock) : M unit :=
  fun h => (Some tt,
            {| logger := logger h; db_ := db_ h;
               lockPick := expiration.RegisterTTL (lockPick h) l;
               calls := calls h ++ [CallRegisterTTL l] |}).

Notation "x <- m ;; k" := (bind m (fun x => k))
  (at level 100, m at next level, right associativity).
Notation "m ;;; k" := (bind m (fun _ => k))
  (at level 100, right associativity).

(** A Go result pair [(response, err)]. *)
Definition Result (A : Type) : Type := option A * option error.

Definition Lock (req : LockRequest) : M (Result LockResponse) :=
  let session := "lock"%string in
  let data := ("req"%string, ReqLock req) in
  Info session data "started" ;;;
  defer (Info session data "complete")
    (if LockRequest_TtlInSeconds req <=? 0 then
       ret (None, Some ErrInvalidTTL)
     else
       out <- db_Lock (LockRequest_Resource req)
                      (LockRequest_TtlInSeconds req) ;;
       match snd out with
       | Some err => ret (None, Some err)
       | None =>
           lockPick_RegisterTTL (fst out) ;;;
           ret (Some mkLockResponse, None)
       end).

Definition Release (req : ReleaseRequest) : M (Result ReleaseResponse) :=
  let session := "release"%string in
  let data := ("request"%string, ReqRelease req) in
  Info session data "started" ;;;
  defer (Info session data "complete")
    (err <- db_Release (ReleaseRequest_Resource req) ;;
     match err with
     | Some e => ret (None, Some e)
     | None => ret (Some mkReleaseResponse, None)
     end).

Definition Fetch (req : FetchRequest) : M (Result FetchResponse) :=
  let session := "fetch"%string in
  let data := ("request"%string, ReqFetch req) in
  Info session data "started" ;;;
  defer (Info session data "complete")
    (out <- db_Fetch (FetchRequest_Key req) ;;
     match snd out with
     | Some e => ret (None, Some e)
     | None =>
         match fst out with
         | None => panic                    (* lock.Resource on a nil lock *)
         | Some lock => ret (Some (mkFetchResponse (db.Resource lock)), None)
         end
     end).

(** The [for _, lock := range locks] loop: one append per element, a
    panic at a nil element. *)
Fixpoint collect (locks : list (option db.Lock))
         (responses : list (option Resource))
  : option (list (option Resource)) :=
  match locks with
  | [] => Some responses
  | None :: _ => None
  | Some lock :: rest => collect rest (responses ++ [db.Resource lock])
  end.

Definition FetchAll (req : FetchAllRequest) : M (Result FetchAllResponse) :=
  let session := "fetch-all"%string in
  let data := ("request"%string, ReqFetchAll req) in
  Info session data "started" ;;;
  defer (Info session data "complete")
    (out <- db_FetchAll ;;
     match snd out with
     | Some e => ret (None, Some e)
     | None =>
         match collect (fst out) [] with
         | None => panic
         | Some responses => ret (Some (mkFetchAllResponse responses), None)
         end
     end).

End Handler.

Arguments locketHandler : clear implicits.
Arguments M : clear implicits.

End handlers.

(* ===================================================================== *)
(** ** An in-memory store and scheduler                                   *)
(* ===================================================================== *)

Module memdb.
Import models.

(** Modelled from the spec: no backing of [db.LockDB] is part of the
    sources at hand.  This is the store contract of the specification
    (Reserve, Release, Fetch, FetchAll) over a table keyed by [Key],
    with a counter for fresh [modified_id] tokens. *)
Record Store := mkStore {
  rows : gmap string db.Lock;
  next_id : nat
}.

Definition empty : Store := {| rows := ∅; next_id := 0 |}.

Definition Reserve (s : Store) (r : option Resource) (ttl : Z)
  : Store * (option db.Lock * option error) :=
  match r with
  | None => (s, (None, Some (errors_New "nil resource")))
  | Some res =>
      match rows s !! Key res with
      | None =>
          let l := db.mkLock (Some res) ttl 1 (pretty (next_id s)) in
          ({| rows := <[Key res := l]> (rows s); next_id := S (next_id s) |},
           (Some l, None))
      | Some row =>
          match db.Resource row with
          | Some held =>
              if decide (Owner held = Owner res) then
                let l := db.mkLock
                           (Some (mkResource (Key held) (Owner held)
                                             (Value res) (Type_ held)))
                           ttl (db.ModifiedIndex row + 1)
                           (db.ModifiedId row) in
                ({| rows := <[Key res := l]> (rows s);
                    next_id := next_id s |},
                 (Some l, None))
              else (s, (None, Some ErrLockCollision))
          | None => (s, (None, Some ErrLockCollision))
          end
      end
  end.

Definition Release (s : Store) (r : option Resource)
  : Store * option error :=
  match r with
  | None => (s, Some (errors_New "nil resource"))
  | Some res =>
      match rows s !! Key res with
      | None => (s, Some ErrResourceNotFound)
      | Some row =>
          match db.Resource row with
          | Some held =>
              if decide (Owner held = Owner res) then
                ({| rows := delete (Key res) (rows s);
                    next_id := next_id s |}, None)
              else (s, Some ErrNotOwner)
          | None => (s, Some ErrNotOwner)
          end
      end
  end.

Definition Fetch (s : Store) (key : string)
  : Store * (option db.Lock * option error) :=
  match rows s !! key with
  | None => (s, (None, Some ErrResourceNotFound))
  | Some row => (s, (Some row, None))
  end.

Definition FetchAll (s : Store)
  : Store * (list (option db.Lock) * option error) :=
  (s, (map (fun kv => Some (snd kv)) (map_to_list (rows s)), None)).

#[global] Instance Store_LockDB : db.LockDB Store := {|
  db.Lock_ := Reserve;
  db.Release := Release;
  db.Fetch := Fetch;
  db.FetchAll := FetchAll
|}.

(** A store that answers every call with the same error, as a store does
    whose connection is down. *)
Record Broken := mkBroken { broken_with : error }.

#[global] Instance Broken_LockDB : db.LockDB Broken := {|
  db.Lock_ := fun s _ _ => (s, (None, Some (broken_with s)));
  db.Release := fun s _ => (s, Some (broken_with s));
  db.Fetch := fun s _ => (s, (None, Some (broken_with s)));
  db.FetchAll := fun s => (s, ([], Some (broken_with s)))
|}.

(** Modelled from the spec: the scheduler's timer table, one entry per
    armed [(key, modified_id)] pair; registering a pair twice arms
    nothing new. *)
Definition timer_of (l : db.Lock) : option string * string :=
  (Key <$> db.Resource l, db.ModifiedId l).

Definition Timers := list (option string * string).

Definition arm (t : Timers) (l : option db.Lock) : Timers :=
  match l with
  | None => t
  | Some lk => if decide (timer_of lk ∈ t) then t else t ++ [timer_of lk]
  end.

#[global] Instance Timers_LockPick : expiration.LockPick Timers := {|
  expiration.RegisterTTL := arm
|}.

End memdb.

(* ===================================================================== *)
(** ** Package [config]: the locket configuration file                    *)
(* ===================================================================== *)

Module config.

(** What [encoding/json]'s scanner reads: a number literal is an integer
    or carries a fraction or an exponent. *)
Inductive Number :=
| NInt (z : Z)
| NFrac (literal : string).

#[local] Set Warnings "-register-all".
Inductive JValue :=
| JNull
| JBool (b : bool)
| JNumber (n : Number)
| JString (s : string)
| JArray (items : list JValue)
| JObject (members : list (string * JValue)).

Inductive error :=
| PathError (op path : string)                 (* os.Open *)
| ReadError (path : string)                    (* reading the open file *)
| SyntaxError                                  (* not a JSON value, or EOF *)
| UnmarshalTypeError (value field : string).   (* a value of the wrong kind *)

(** A path names a regular file with its bytes, or something that opens
    but cannot be read (a directory); any other path does not open. *)
Inductive Node :=
| RegularFile (content : string)
| Unreadable.

Definition FS := gmap string Node.

Record File := mkFile { file_name : string; file_node : Node }.

Definition os_Open (fs : FS) (name : string) : File + error :=
  match fs !! name with
  | Some n => inl (mkFile name n)
  | None => inr (PathError "open" name)
  end.

(** Modelled from the spec: the declarations of [lagerflags.LagerConfig]
    and [debugserver.DebugServerConfig] are library code; the test of
    this package shows their fields and their JSON keys. *)
Record LagerConfig := mkLagerConfig { LogLevel : string }.
Record DebugServerConfig := mkDebugServerConfig { DebugAddress : string }.

(** The fields a JSON key can reach, in declaration order, the promoted
    fields of the two embedded structs last. *)
Inductive Field :=
| FCaFile | FCertFile | FConsulCluster | FDatabaseConnectionString
| FMaxOpenDatabaseConnections | FDatabaseDriver | FDropsondePort
| FKeyFile | FListenAddress | FSQLCACertFile | FLoggregatorConfig
| FDebugAddress | FLogLevel.

#[global] Instance Field_eq_dec : EqDecision Field.
Proof. solve_decision. Defined.

Definition fields : list Field :=
  [ FCaFile; FCertFile; FConsulCluster; FDatabaseConnectionString;
    FMaxOpenDatabaseConnections; FDatabaseDriver; FDropsondePort;
    FKeyFile; FListenAddress; FSQLCACertFile; FLoggregatorConfig;
    FDebugAddress; FLogLevel ].

(** The name in each field's [json:"..."] tag. *)
Definition json_name (f : Field) : string :=
  match f with
  | FCaFile => "ca_file"
  | FCertFile => "cert_file"
  | FConsulCluster => "consul_cluster"
  | FDatabaseConnectionString => "database_connection_string"
  | FMaxOpenDatabaseConnections => "max_open_database_connections"
  | FDatabaseDriver => "database_driver"
  | FDropsondePort => "dropsonde_port"
  | FKeyFile => "key_file"
  | FListenAddress => "listen_address"
  | FSQLCACertFile => "sql_ca_cert_file"
  | FLoggregatorConfig => "loggregator"
  | FDebugAddress => "debug_address"
  | FLogLevel => "log_level"
  end%string.

(** Go's [int] on the platforms locket runs on. *)
Definition int_ok (z : Z) : bool := (- 2 ^ 63 <=? z) && (z <? 2 ^ 63).

Definition kind_of (v : JValue) : string :=
  match v with
  | JNull => "null"
  | JBool _ => "bool"
  | JNumber _ => "number"
  | JString _ => "string"
  | JArray _ => "array"
  | JObject _ => "object"
  end%string.

Section Config.
(** [loggingclient.Config] and its decoding, the scanner of
    [encoding/json], its case-insensitive comparison of keys, and the
    defaults of lager are library code. *)
Context {Loggregator : Type}.
Variable zero_Loggregator : Loggregator.
Variable decode_Loggregator :
  JValue -> Loggregator -> Loggregator * option error.
Variable scan : string -> option JValue.
Variable equalFold : string -> string -> bool.
Variable DefaultLagerConfig : LagerConfig.

Record LocketConfig := mkLocketConfig {
  CaFile : string;
  CertFile : string;
  ConsulCluster : string;
  DatabaseConnectionString : string;
  MaxOpenDatabaseConnections : Z;
  DatabaseDriver : string;
  DropsondePort : Z;
  KeyFile : string;
  ListenAddress : string;
  SQLCACertFile : string;
  LoggregatorConfig : Loggregator;
  DebugServerConfig_ : DebugServerConfig;
  LagerConfig_ : LagerConfig
}.

(** [LocketConfig{}]. *)
Definition zero : LocketConfig :=
  {| CaFile := ""; CertFile := ""; ConsulCluster := "";
     DatabaseConnectionString := ""; MaxOpenDatabaseConnections := 0;
     DatabaseDriver := ""; DropsondePort := 0; KeyFile := "";
     ListenAddress := ""; SQLCACertFile := "";
     LoggregatorConfig := zero_Loggregator;
     DebugServerConfig_ := mkDebugServerConfig "";
     LagerConfig_ := mkLagerConfig "" |}.

Definition DefaultLocketConfig : LocketConfig :=
  {| CaFile := ""; CertFile := ""; ConsulCluster := "";
     DatabaseConnectionString := ""; MaxOpenDatabaseConnections := 0;
     DatabaseDriver := "mysql"; DropsondePort := 0; KeyFile := "";
     ListenAddress := ""; SQLCACertFile := "";
     LoggregatorConfig := zero_Loggregator;
     DebugServerConfig_ := mkDebugServerConfig "";
     LagerConfig_ := DefaultLagerConfig |}.

(** The content of one field, whatever its Go type. *)
Inductive FieldValue :=
| VString (s : string)
| VInt (z : Z)
| VLoggregator (l : Loggregator).

Definition get (f : Field) (c : LocketConfig) : FieldValue :=
  match f with
  | FCaFile => VString (CaFile c)
  | FCertFile => VString (CertFile c)
  | FConsulCluster => VString (ConsulCluster c)
  | FDatabaseConnectionString => VString (DatabaseConnectionString c)
  | FMaxOpenDatabaseConnections => VInt (MaxOpenDatabaseConnections c)
  | FDatabaseDriver => VString (DatabaseDriver c)
  | FDropsondePort => VInt (DropsondePort c)
  | FKeyFile => VString (KeyFile c)
  | FListenAddress => VString (ListenAddress c)
  | FSQLCACertFile => VString (SQLCACertFile c)
  | FLoggregatorConfig => VLoggregator (LoggregatorConfig c)
  | FDebugAddress => VString (DebugAddress (DebugServerConfig_ c))
  | FLogLevel => VString (LogLevel (LagerConfig_ c))
  end.

(** Storing into a field; a value of another Go type does not fit and
    leaves the struct as it is. *)
Definition set (f : Field) (v : FieldValue) (c : LocketConfig)
  : LocketConfig :=
  match f, v with
  | FCaFile, VString s =>
      mkLocketConfig s (CertFile c) (ConsulCluster c)
        (DatabaseConnectionString c) (MaxOpenDatabaseConnections c)
        (DatabaseDriver c) (DropsondePort c) (KeyFile c) (ListenAddress c)
        (SQLCACertFile c) (LoggregatorConfig c) (DebugServerConfig_ c)
        (LagerConfig_ c)
  | FCertFile, VString s =>
      mkLocketConfig (CaFile c) s (ConsulCluster c)
        (DatabaseConnectionString c) (MaxOpenDatabaseConnections c)
        (DatabaseDriver c) (DropsondePort c) (KeyFile c) (ListenAddress c)
        (SQLCACertFile c) (LoggregatorConfig c) (DebugServerConfig_ c)
        (LagerConfig_ c)
  | FConsulCluster, VString s =>
      mkLocketConfig (CaFile c) (CertFile c) s
        (DatabaseConnectionString c) (MaxOpenDatabaseConnections c)
        (DatabaseDriver c) (DropsondePort c) (KeyFile c) (ListenAddress c)
        (SQLCACertFile c) (LoggregatorConfig c) (DebugServerConfig_ c)
        (LagerConfig_ c)
  | FDatabaseConnectionString, VString s =>
      mkLocketConfig (CaFile c) (CertFile c) (ConsulCluster c)
        s (MaxOpenDatabaseConnections c)
        (DatabaseDriver c) (DropsondePort c) (KeyFile c) (ListenAddress c)
        (SQLCACertFile c) (LoggregatorConfig c) (DebugServerConfig_ c)
        (LagerConfig_ c)
  | FMaxOpenDatabaseConnections, VInt z =>
      mkLocketConfig (CaFile c) (CertFile c) (ConsulCluster c)
        (DatabaseConnectionString c) z
        (DatabaseDriver c) (DropsondePort c) (KeyFile c) (ListenAddress c)
        (SQLCACertFile c) (LoggregatorConfig c) (DebugServerConfig_ c)
        (LagerConfig_ c)
  | FDatabaseDriver, VString s =>
      mkLocketConfig (CaFile c) (CertFile c) (ConsulCluster c)
        (DatabaseConnectionString c) (MaxOpenDatabaseConnections c)
        s (DropsondePort c) (KeyFile c) (ListenAddress c)
        (SQLCACertFile c) (LoggregatorConfig c) (DebugServerConfig_ c)
        (LagerConfig_ c)
  | FDropsondePort, VInt z =>
      mkLocketConfig (CaFile c) (CertFile c) (ConsulCluster c)
        (DatabaseConnectionString c) (MaxOpenDatabaseConnections c)
        (DatabaseDriver c) z (KeyFile c) (ListenAddress c)
        (SQLCACertFile c) (LoggregatorConfig c) (DebugServerConfig_ c)
        (LagerConfig_ c)
  | FKeyFile, VString s =>
      mkLocketConfig (CaFile c) (CertFile c) (ConsulCluster c)
        (DatabaseConnectionString c) (MaxOpenDatabaseConnections c)
        (DatabaseDriver c) (DropsondePort c) s (ListenAddress c)
        (SQLCACertFile c) (LoggregatorConfig c) (DebugServerConfig_ c)
        (LagerConfig_ c)
  | FListenAddress, VString s =>
      mkLocketConfig (CaFile c) (CertFile c) (ConsulCluster c)
        (DatabaseConnectionString c) (MaxOpenDatabaseConnections c)
        (DatabaseDriver c) (DropsondePort c) (KeyFile c) s
        (SQLCACertFile c) (LoggregatorConfig c) (DebugServerConfig_ c)
        (LagerConfig_ c)
  | FSQLCACertFile, VString s =>
      mkLocketConfig (CaFile c) (CertFile c) (ConsulCluster c)
        (DatabaseConnectionString c) (MaxOpenDatabaseConnections c)
        (DatabaseDriver c) (DropsondePort c) (KeyFile c) (ListenAddress c)
        s (LoggregatorConfig c) (DebugServerConfig_ c)
        (LagerConfig_ c)
  | FLoggregatorConfig, VLoggregator l =>
      mkLocketConfig (CaFile c) (CertFile c) (ConsulCluster c)
        (DatabaseConnectionString c) (MaxOpenDatabaseConnections c)
        (DatabaseDriver c) (DropsondePort c) (KeyFile c) (ListenAddress c)
        (SQLCACertFile c) l (DebugServerConfig_ c)
        (LagerConfig_ c)
  | FDebugAddress, VString s =>
      mkLocketConfig (CaFile c) (CertFile c) (ConsulCluster c)
        (DatabaseConnectionString c) (MaxOpenDatabaseConnections c)
        (DatabaseDriver c) (DropsondePort c) (KeyFile c) (ListenAddress c)
        (SQLCACertFile c) (LoggregatorConfig c) (mkDebugServerConfig s)
        (LagerConfig_ c)
  | FLogLevel, VString s =>
      mkLocketConfig (CaFile c) (CertFile c) (ConsulCluster c)
        (DatabaseConnectionString c) (MaxOpenDatabaseConnections c)
        (DatabaseDriver c) (DropsondePort c) (KeyFile c) (ListenAddress c)
        (SQLCACertFile c) (LoggregatorConfig c) (DebugServerConfig_ c)
        (mkLagerConfig s)
  | _, _ => c
  end.

(** The field a key of the file addresses: the one whose tag is the
    key, else the first whose tag equals it up to case. *)
Definition field_of_key (key : string) : option Field :=
  match find (fun f => String.eqb (json_name f) key) fields with
  | Some f => Some f
  | None => find (fun f => equalFold (json_name f) key) fields
  end.

(** Decoding one JSON value into a field holding [old]: the new content,
    or the error that is saved while the field keeps [old].  A JSON null
    has no effect on a field that is not a pointer. *)
Definition decode_field (f : Field) (v : JValue) (old : FieldValue)
  : FieldValue * option error :=
  match v with
  | JNull => (old, None)
  | _ =>
      match old with
      | VString _ =>
          match v with
          | JString s => (VString s, None)
          | _ => (old, Some (UnmarshalTypeError (kind_of v) (json_name f)))
          end
      | VInt _ =>
          match v with
          | JNumber (NInt z) =>
              if int_ok z then (VInt z, None)
              else (old, Some (UnmarshalTypeError "number" (json_name f)))
          | _ => (old, Some (UnmarshalTypeError (kind_of v) (json_name f)))
          end
      | VLoggregator l =>
          let '(l', e) := decode_Loggregator v l in (VLoggregator l', e)
      end
  end.

(** The decoder keeps the first error it meets and goes on. *)
Definition saveError (saved new : option error) : option error :=
  match saved with
  | Some e => Some e
  | None => new
  end.

Definition decode_member (st : LocketConfig * option error)
           (m : string * JValue) : LocketConfig * option error :=
  let '(c, saved) := st in
  match field_of_key (fst m) with
  | None => (c, saved)                       (* unknown keys are skipped *)
  | Some f =>
      let '(v, e) := decode_field f (snd m) (get f c) in
      (set f v c, saveError saved e)
  end.

Definition decode_object (members : list (string * JValue))
           (c : LocketConfig) : LocketConfig * option error :=
  fold_left decode_member members (c, None).

(** [json.Unmarshal] of a scanned value into a [*LocketConfig]. *)
Definition unmarshal (v : JValue) (c : LocketConfig)
  : LocketConfig * option error :=
  match v with
  | JNull => (c, None)
  | JObject members => decode_object members c
  | _ => (c, Some (UnmarshalTypeError (kind_of v) "LocketConfig"))
  end.

(** [json.NewDecoder(configFile).Decode(&locketConfig)]: read the first
    JSON value of the file, then unmarshal it. *)
Definition Decode (configFile : File) (c : LocketConfig)
  : LocketConfig * option error :=
  match file_node configFile with
  | Unreadable => (c, Some (ReadError (file_name configFile)))
  | RegularFile content =>
      match scan content with
      | None => (c, Some SyntaxError)
      | Some v => unmarshal v c
      end
  end.

Definition NewLocketConfig (fs : FS) (configPath : string)
  : LocketConfig * option error :=
  let locketConfig := DefaultLocketConfig in
  match os_Open fs configPath with
  | inr err => (zero, Some err)
  | inl configFile =>
      let '(locketConfig, err) := Decode configFile locketConfig in
      match err with
      | Some e => (zero, Some e)
      | None => (locketConfig, None)
      end
  end.

(** Two contents of the same Go type. *)
Definition same_kind (v w : FieldValue) : bool :=
  match v, w with
  | VString _, VString _ => true
  | VInt _, VInt _ => true
  | VLoggregator _, VLoggregator _ => true
  | _, _ => false
  end.

(** What one member of the file makes of a field holding [old]. *)
Definition assign (f : Field) (old : FieldValue) (v : JValue) : FieldValue :=
  fst (decode_field f v old).

(** The content [x] is what the JSON value [v] spells out: the same string,
    the same integer; a nested object is read by the library's decoder. *)
Definition spelled (v : JValue) (x : FieldValue) : Prop :=
  match v, x with
  | JString s, VString s' => s = s'
  | JNumber (NInt z), VInt z' => z = z'
  | _, VLoggregator _ => True
  | _, _ => False
  end.

(** No member of the list [vs], decoded in turn into a field holding [old],
    is refused. *)
Fixpoint accepted (f : Field) (vs : list JValue) (old : FieldValue) : Prop :=
  match vs with
  | [] => True
  | v :: rest =>
      snd (decode_field f v old) = None /\ accepted f rest (assign f old v)
  end.

Definition object_members (v : JValue) : list (string * JValue) :=
  match v with
  | JObject members => members
  | _ => []
  end.

(** The members of the file's object that address field [f]. *)
Definition members_of (f : Field) (members : list (string * JValue))
  : list JValue :=
  map snd (filter (fun m => field_of_key (fst m) = Some f) members).

End Config.

(** A comparison up to ASCII case, which is what the tags of
    [LocketConfig] need of [equalFold]. *)
Definition lower (a : Ascii.ascii) : Ascii.ascii :=
  let n := Ascii.nat_of_ascii a in
  if ((65 <=? n) && (n <=? 90))%nat then Ascii.ascii_of_nat (n + 32) else a.

Fixpoint lower_string (s : string) : string :=
  match s with
  | EmptyString => EmptyString
  | String a rest => String (lower a) (lower_string rest)
  end.

Definition ascii_equalFold (s t : string) : bool :=
  String.eqb (lower_string s) (lower_string t).

(** The files of the package's test (spacing aside), and what the scanner
    reads in them.  [q] puts a word between double quotes. *)
Definition quote : string :=
  String (Ascii.Ascii false true false false false true false false)
         EmptyString.

Definition q (s : string) : string := quote +:+ s +:+ quote.

Definition member (key value : string) : string := q key +:+ ":" +:+ value.

Definition configData : string :=
  "{" +:+ member "log_level" (q "debug") +:+ ","
      +:+ member "listen_address" (q "1.2.3.4:9090") +:+ ","
      +:+ member "database_driver" (q "mysql") +:+ ","
      +:+ member "database_connection_string" (q "stuff") +:+ ","
      +:+ member "debug_address" (q "some-more-stuff") +:+ ","
      +:+ member "consul_cluster"
            (q "http://127.0.0.1:1234,http://127.0.0.1:12345")
      +:+ "}".

Definition overrides : string :=
  "{" +:+ member "max_open_database_connections" "200" +:+ ","
      +:+ member "database_driver" (q "postgres") +:+ "}".

Definition bad_port : string :=
  "{" +:+ member "dropsonde_port" (q "high") +:+ "}".

Definition test_scan (content : string) : option JValue :=
  if String.eqb content configData then
    Some (JObject
      [ ("log_level", JString "debug");
        ("listen_address", JString "1.2.3.4:9090");
        ("database_driver", JString "mysql");
        ("database_connection_string", JString "stuff");
        ("debug_address", JString "some-more-stuff");
        ("consul_cluster",
         JString "http://127.0.0.1:1234,http://127.0.0.1:12345") ]%string)
  else if String.eqb content "{}" then Some (JObject [])
  else if String.eqb content overrides then
    Some (JObject [ ("max_open_database_connections", JNumber (NInt 200));
                    ("database_driver", JString "postgres") ]%string)
  else if String.eqb content bad_port then
    Some (JObject [ ("dropsonde_port", JString "high") ]%string)
  else None.

Definition test_fs : FS :=
  <[ "config-file-1"%string := RegularFile configData ]>
  (<[ "config-file-2"%string := RegularFile "{{" ]>
  (<[ "config-file-3"%string := RegularFile "{}" ]>
  (<[ "config-file-4"%string := RegularFile overrides ]>
  (<[ "config-file-5"%string := RegularFile bad_port ]>
  (<[ "/tmp"%string := Unreadable ]> ∅))))).

(** The package's test runs with lager's default level, "info", and no
    loggregator section in its files. *)
Definition test_lager : LagerConfig := mkLagerConfig "info".

Definition test_NewLocketConfig (fs : FS) (configPath : string)
  : @LocketConfig unit * option error :=
  NewLocketConfig tt (fun _ l => (l, None)) test_scan ascii_equalFold
                  test_lager fs configPath.

Definition test_DefaultLocketConfig : @LocketConfig unit :=
  DefaultLocketConfig tt test_lager.

End config.

(* ===================================================================== *)
(** ** Package [lock]: the client-side lock runner                        *)
(* ===================================================================== *)

Module lock.
Import models.

(** The client the runner talks to ([models.LocketClient]); the test
    hands the runner a fake one. *)
Class LocketClient (C : Type) := {
  client_Lock : C -> LockRequest -> C * (option LockResponse * option error);
  client_Release :
    C -> ReleaseRequest -> C * (option ReleaseResponse * option error)
}.

(** The states of the runner. *)
Inductive Phase := Acquiring | Holding | Failed | Done.

#[global] Instance Phase_eq_dec : EqDecision Phase.
Proof. solve_decision. Defined.

(** What the runner does, in order: its RPCs with their outcome, the
    sleeps it asks of the clock, the ready signal, and its return. *)
Inductive Action :=
| ActLock (req : LockRequest) (err : option error)
| ActSleep (d : Z)
| ActReady
| ActRelease (req : ReleaseRequest) (err : option error)
| ActExit (err : option error).

(** What happens to the runner from outside: the clock is moved forward
    by [d] nanoseconds, or the process is signalled (cancellation). *)
Inductive Event :=
| Advance (d : Z)
| Signal.

Definition lock_succeeded (a : Action) : bool :=
  match a with ActLock _ None => true | _ => false end.

Definition is_ActReady (a : Action) : bool :=
  match a with ActReady => true | _ => false end.

Definition is_ActRelease (a : Action) : bool :=
  match a with ActRelease _ _ => true | _ => false end.

Section Runner.
Context {C : Type} `{!LocketClient C}.

(** Modelled from the spec: [lock/lock.go] ([NewLockRunner] and its
    [Run]) is not part of the sources at hand; only its test is.  The
    runner is the state machine of the specification: ACQUIRING calls
    Lock, on success signals ready and holds, on failure sleeps
    [retryInterval] on the injected clock and retries; HOLDING renews on
    every [retryInterval] tick and fails on the first error;
    cancellation releases a held lock, ignoring the result, and ends the
    runner, and ends an acquiring runner without a release.  An RPC is
    one step: a signal is seen while the runner waits for its timer. *)
Record lockRunner := mkRunner {
  locker : C;
  lock_ : option Resource;
  ttlInSeconds : Z;
  retryInterval : Z;                 (* time.Duration *)
  now : Z;                           (* the injected clock *)
  timer : option Z;                  (* when the pending sleep ends *)
  phase : Phase;
  ready : bool;                      (* the ready channel is closed *)
  exited : option (option error);    (* what Run returned, once it has *)
  trace : list Action
}.

Definition NewLockRunner (c : C) (l : option Resource) (ttl : Z)
           (clock : Z) (interval : Z) : lockRunner :=
  {| locker := c; lock_ := l; ttlInSeconds := ttl;
     retryInterval := interval; now := clock; timer := None;
     phase := Acquiring; ready := false; exited := None; trace := [] |}.

Definition lock_request (r : lockRunner) : LockRequest :=
  mkLockRequest (lock_ r) (ttlInSeconds r).

Definition release_request (r : lockRunner) : ReleaseRequest :=
  mkReleaseRequest (lock_ r).

(** The Lock RPC with the runner's resource and ttl. *)
Definition call_Lock (r : lockRunner) : lockRunner * option error :=
  let '(c, out) := client_Lock (locker r) (lock_request r) in
  ({| locker := c; lock_ := lock_ r; ttlInSeconds := ttlInSeconds r;
      retryInterval := retryInterval r; now := now r; timer := timer r;
      phase := phase r; ready := ready r; exited := exited r;
      trace := trace r ++ [ActLock (lock_request r) (snd out)] |},
   snd out).

(** Sleep [retryInterval] on the clock. *)
Definition sleep (r : lockRunner) : lockRunner :=
  {| locker := locker r; lock_ := lock_ r; ttlInSeconds := ttlInSeconds r;
     retryInterval := retryInterval r; now := now r;
     timer := Some (now r + retryInterval r);
     phase := phase r; ready := ready r; exited := exited r;
     trace := trace r ++ [ActSleep (retryInterval r)] |}.

Definition signal_ready (r : lockRunner) : lockRunner :=
  {| locker := locker r; lock_ := lock_ r; ttlInSeconds := ttlInSeconds r;
     retryInterval := retryInterval r; now := now r; timer := timer r;
     phase := Holding; ready := true; exited := exited r;
     trace := trace r ++ [ActReady] |}.

Definition exit (p : Phase) (err : option error) (r : lockRunner)
  : lockRunner :=
  {| locker := locker r; lock_ := lock_ r; ttlInSeconds := ttlInSeconds r;
     retryInterval := retryInterval r; now := now r; timer := None;
     phase := p; ready := ready r; exited := Some err;
     trace := trace r ++ [ActExit err] |}.

(** Modelled from the spec: ACQUIRING.  One attempt: call Lock; on success
    signal ready and hold the lock, on failure stay; in both cases sleep
    the retry interval next. *)
Definition acquire (r : lockRunner) : lockRunner :=
  let '(r1, err) := call_Lock r in
  match err with
  | None => sleep (signal_ready r1)
  | Some _ => sleep r1
  end.

(** Modelled from the spec: HOLDING.  One renewal: call Lock again; any
    failure is FAILED and the error is returned. *)
Definition renew (r : lockRunner) : lockRunner :=
  let '(r1, err) := call_Lock r in
  match err with
  | None => sleep r1
  | Some e => exit Failed (Some e) r1
  end.

(** Modelled from the spec: RELEASING.  Call Release, drop its result,
    then DONE. *)
Definition release (r : lockRunner) : lockRunner :=
  let '(c, out) := client_Release (locker r) (release_request r) in
  exit Done None
    {| locker := c; lock_ := lock_ r; ttlInSeconds := ttlInSeconds r;
       retryInterval := retryInterval r; now := now r; timer := timer r;
       phase := phase r; ready := ready r; exited := exited r;
       trace := trace r ++ [ActRelease (release_request r) (snd out)] |}.

Definition advance (d : Z) (r : lockRunner) : lockRunner :=
  {| locker := locker r; lock_ := lock_ r; ttlInSeconds := ttlInSeconds r;
     retryInterval := retryInterval r; now := now r + d; timer := timer r;
     phase := phase r; ready := ready r; exited := exited r;
     trace := trace r |}.

(** The pending sleep is over. *)
Definition due (r : lockRunner) : bool :=
  match timer r with
  | Some deadline => deadline <=? now r
  | None => false
  end.

(** Modelled from the spec: the transitions of the state machine.  A tick
    of the clock that ends the pending sleep is a retry (ACQUIRING) or a
    renewal (HOLDING); cancellation ends an acquiring runner without a
    Release and releases for a holding one; a runner that has returned
    does nothing. *)
Definition step (r : lockRunner) (ev : Event) : lockRunner :=
  match phase r, ev with
  | Acquiring, Signal => exit Done None r
  | Acquiring, Advance d =>
      let r1 := advance d r in if due r1 then acquire r1 else r1
  | Holding, Signal => release r
  | Holding, Advance d =>
      let r1 := advance d r in if due r1 then renew r1 else r1
  | Failed, _ => r
  | Done, _ => r
  end.

(** Modelled from the spec: [Run] starts in ACQUIRING and makes the first
    attempt at once. *)
Definition Run (r : lockRunner) : lockRunner := acquire r.

Definition run_from (r : lockRunner) (evs : list Event) : lockRunner :=
  fold_left step evs r.

(** The clock only moves forward. *)
Definition forward (ev : Event) : bool :=
  match ev with
  | Advance d => 0 <=? d
  | Signal => true
  end.

(** The states a runner passes through once [Run] was called on a new
    runner for resource [l], with [ttl] and [interval]. *)
Definition started_with (l : option Resource) (ttl interval : Z)
           (r : lockRunner) : Prop :=
  exists c clock evs,
    0 <= interval /\ forallb forward evs = true /\
    r = run_from (Run (NewLockRunner c l ttl clock interval)) evs.

Definition count (p : Action -> bool) (t : list Action) : nat :=
  length (filter (fun a => p a = true) t).

(** Every RPC in the trace carries the runner's resource (and ttl), every
    sleep lasts the retry interval. *)
Definition addressed (r : lockRunner) (a : Action) : Prop :=
  match a with
  | ActLock req _ => req = lock_request r
  | ActRelease req _ => req = release_request r
  | ActSleep d => d = retryInterval r
  | ActReady => True
  | ActExit _ => True
  end.

(** A sleep is pending and ends within one retry interval. *)
Definition asleep (r : lockRunner) : Prop :=
  exists deadline,
    timer r = Some deadline /\ deadline <= now r + retryInterval r.

(** What holds of a runner in each of its states. *)
Definition invariant (l : option Resource) (ttl interval : Z)
           (r : lockRunner) : Prop :=
  lock_ r = l /\ ttlInSeconds r = ttl /\ retryInterval r = interval /\
  0 <= interval /\
  Forall (addressed r) (trace r) /\
  ready r = existsb lock_succeeded (trace r) /\
  ready r = existsb is_ActReady (trace r) /\
  match phase r with
  | Acquiring =>
      ready r = false /\ exited r = None /\
      count is_ActRelease (trace r) = 0%nat /\ asleep r /\
      exists t e, trace r = t ++ [ActLock (lock_request r) (Some e);
                                  ActSleep interval]
  | Holding =>
      ready r = true /\ exited r = None /\
      count is_ActRelease (trace r) = 0%nat /\ asleep r
  | Failed =>
      count is_ActRelease (trace r) = 0%nat /\
      exists e, exited r = Some (Some e)
  | Done =>
      (count is_ActRelease (trace r) <= 1)%nat /\ exited r = Some None
  end.

End Runner.

Arguments lockRunner : clear implicits.

(** The fake client of the test: every call is recorded; Lock answers
    with what the stub says for the number of calls made before, Release
    with a fixed result. *)
Record FakeLocketClient := mkFake {
  LockStub : nat -> option error;
  ReleaseReturns : option error;
  LockCalls : list LockRequest;
  ReleaseCalls : list ReleaseRequest
}.

#[global] Instance Fake_LocketClient : LocketClient FakeLocketClient := {|
  client_Lock := fun c req =>
    ({| LockStub := LockStub c; ReleaseReturns := ReleaseReturns c;
        LockCalls := LockCalls c ++ [req];
        ReleaseCalls := ReleaseCalls c |},
     (None, LockStub c (length (LockCalls c))));
  client_Release := fun c req =>
    ({| LockStub := LockStub c; ReleaseReturns := ReleaseReturns c;
        LockCalls := LockCalls c;
        ReleaseCalls := ReleaseCalls c ++ [req] |},
     (None, ReleaseReturns c))
|}.

Definition fakeLocker (stub : nat -> option error) : FakeLocketClient :=
  {| LockStub := stub; ReleaseReturns := None;
     LockCalls := []; ReleaseCalls := [] |}.

(** The values of the test's [BeforeEach]. *)
Definition expectedLock : option Resource :=
  Some (mkResource "test" "jim" "is pretty sweet." "").
Definition expectedTTL : Z := 5.

(** Modelled from the spec: [locket.RetryInterval] is not part of the
    sources at hand; the scenarios of the specification retry every
    second. *)
Definition lockRetryInterval : Z := 1000000000.
Definition no_lock_for_you : error := errors_New "no-lock-for-you".

Definition lockRunner_of (stub : nat -> option error)
  : lockRunner FakeLocketClient :=
  NewLockRunner (fakeLocker stub) expectedLock expectedTTL 0
                lockRetryInterval.

(** The stubs of the test: a locker that always grants, one that never
    does, one that refuses the first [n] calls ("and the lock becomes
    available"), one that grants the first [n] calls only ("and then the
    lock becomes unavailable"). *)
Definition grants : nat -> option error := fun _ => None.
Definition refuses : nat -> option error := fun _ => Some no_lock_for_you.
Definition grants_after (n : nat) : nat -> option error :=
  fun k => if (k <? n)%nat then Some no_lock_for_you else None.
Definition grants_until (n : nat) : nat -> option error :=
  fun k => if (k <? n)%nat then None else Some no_lock_for_you.

(** [ifrit.Background(lockRunner)], then the events of a test. *)
Definition background (stub : nat -> option error) (evs : list Event)
  : lockRunner FakeLocketClient :=
  run_from (Run (lockRunner_of stub)) evs.

Definition expectedRequest : LockRequest :=
  mkLockRequest expectedLock expectedTTL.

End lock.

(* ===================================================================== *)
(** ** Scenarios                                                          *)
(* ===================================================================== *)

Module scenarios.
Import models handlers.

(** A handler over the in-memory store, empty at first. *)
Definition fresh : locketHandler memdb.Store memdb.Timers :=
  NewLocketHandler [] memdb.empty [].

Definition res_lock : Resource := mkResource "k1" "A" "v" "lock".
Definition res_presence : Resource := mkResource "k2" "B" "w" "presence".

(** The records the empty store makes for the two resources. *)
Definition first_record : db.Lock := db.mkLock (Some res_lock) 10 1 "0".
Definition second_record : db.Lock :=
  db.mkLock (Some res_presence) 10 1 "1".

(** The same handler after two accepted Lock requests, one per type. *)
Definition two_types : locketHandler memdb.Store memdb.Timers :=
  snd (Lock (mkLockRequest (Some res_presence) 10)
            (snd (Lock (mkLockRequest (Some res_lock) 10) fresh))).

(** A handler whose store is down. *)
Definition store_down : locketHandler memdb.Broken memdb.Timers :=
  NewLocketHandler [] (memdb.mkBroken (errors_New "connection reset")) [].

(** Modelled from the spec: the filter the specification describes for
    FetchAll, an exact match on the type with the empty string matching
    every record. *)
Definition type_filter_matches (type_filter : string)
           (r : option Resource) : bool :=
  match r with
  | Some res =>
      bool_decide (type_filter = ""%string)
      || bool_decide (Type_ res = type_filter)
  | None => bool_decide (type_filter = ""%string)
  end.

End scenarios.

(* ===================================================================== *)
(** ** Reading the call log, and writing a configuration file             *)
(* ===================================================================== *)

Module calls.
Import models handlers.

(** The calls of a log that went to the store, and those that went to the
    scheduler. *)
Definition is_db_call (c : Call) : bool :=
  match c with
  | CallRegisterTTL _ => false
  | _ => true
  end.

Definition is_RegisterTTL (c : Call) : bool :=
  match c with
  | CallRegisterTTL _ => true
  | _ => false
  end.

Definition db_calls (l : list Call) : list Call :=
  filter (fun c => is_db_call c = true) l.

Definition registrations (l : list Call) : list Call :=
  filter (fun c => is_RegisterTTL c = true) l.

End calls.

Module marshal.
Import config.

(** The fields whose tag carries [omitempty].  For the promoted
    [log_level] the option shows in the package's test: a serialized
    [LocketConfig{}] reads back as the default configuration. *)
Definition omitempty (f : Field) : bool :=
  match f with
  | FConsulCluster | FMaxOpenDatabaseConnections | FDatabaseDriver
  | FDropsondePort | FSQLCACertFile | FLogLevel => true
  | _ => false
  end.

(** A value of the wrong JSON kind for a field of a plain Go type: anything
    but a string (or null) for a string field, anything but an integer in
    range (or null) for an int field. *)
Definition refused (f : Field) (v : JValue) : bool :=
  match f with
  | FLoggregatorConfig => false
  | FMaxOpenDatabaseConnections | FDropsondePort =>
      match v with
      | JNull => false
      | JNumber (NInt z) => negb (int_ok z)
      | _ => true
      end
  | _ =>
      match v with
      | JNull | JString _ => false
      | _ => true
      end
  end.

Section Marshal.
Context {Loggregator : Type}.
Variable encode_Loggregator : Loggregator -> JValue.
Variable DefaultLagerConfig : LagerConfig.

(** The empty values [omitempty] leaves out: the empty string and zero; a
    struct is never left out. *)
Definition is_empty (v : @FieldValue Loggregator) : bool :=
  match v with
  | VString s => String.eqb s ""
  | VInt z => z =? 0
  | VLoggregator _ => false
  end.

Definition encode (v : @FieldValue Loggregator) : JValue :=
  match v with
  | VString s => JString s
  | VInt z => JNumber (NInt z)
  | VLoggregator l => encode_Loggregator l
  end.

Definition written (c : @LocketConfig Loggregator) (f : Field) : bool :=
  negb (omitempty f && is_empty (get f c)).

(** [json.Marshal] of a [LocketConfig]: one member per field, under the
    name of its tag, in the order of the fields; an [omitempty] field that
    is empty is left out. *)
Definition Marshal (c : @LocketConfig Loggregator) : JValue :=
  JObject (map (fun f => (json_name f, encode (get f c)))
               (filter (fun f => written c f = true) fields)).

(** What reading a serialized configuration gives back: the configuration
    itself, with the defaults in the place of an empty driver and of an
    empty log level. *)
Definition restore (c : @LocketConfig Loggregator) : LocketConfig :=
  {| CaFile := CaFile c; CertFile := CertFile c;
     ConsulCluster := ConsulCluster c;
     DatabaseConnectionString := DatabaseConnectionString c;
     MaxOpenDatabaseConnections := MaxOpenDatabaseConnections c;
     DatabaseDriver :=
       if String.eqb (DatabaseDriver c) "" then "mysql"%string
       else DatabaseDriver c;
     DropsondePort := DropsondePort c; KeyFile := KeyFile c;
     ListenAddress := ListenAddress c; SQLCACertFile := SQLCACertFile c;
     LoggregatorConfig := LoggregatorConfig c;
     DebugServerConfig_ := DebugServerConfig_ c;
     LagerConfig_ :=
       if String.eqb (LogLevel (LagerConfig_ c)) "" then DefaultLagerConfig
       else LagerConfig_ c |}.

End Marshal.

(** More files, and what the scanner reads in them: a serialized
    [LocketConfig{}], a file of keys no field answers to, a file with a
    number where a string belongs, and two files with the same members in
    another order. *)
Definition serialized_zero : string :=
  "{" +:+ member "ca_file" (q "") +:+ ","
      +:+ member "cert_file" (q "") +:+ ","
      +:+ member "database_connection_string" (q "") +:+ ","
      +:+ member "key_file" (q "") +:+ ","
      +:+ member "listen_address" (q "") +:+ ","
      +:+ member "loggregator" "{}" +:+ ","
      +:+ member "debug_address" (q "") +:+ "}".

Definition unknown_keys : string :=
  "{" +:+ member "listen_port" "9090" +:+ ","
      +:+ member "comment" (q "staging") +:+ "}".

Definition bad_driver : string :=
  "{" +:+ member "listen_address" (q "1.2.3.4:9090") +:+ ","
      +:+ member "database_driver" "5" +:+ "}".

Definition address_then_driver : string :=
  "{" +:+ member "listen_address" (q "1.2.3.4:9090") +:+ ","
      +:+ member "database_driver" (q "postgres") +:+ "}".

Definition driver_then_address : string :=
  "{" +:+ member "database_driver" (q "postgres") +:+ ","
      +:+ member "listen_address" (q "1.2.3.4:9090") +:+ "}".

Definition more_scan (content : string) : option JValue :=
  if String.eqb content serialized_zero then
    Some (JObject
      [ ("ca_file", JString ""); ("cert_file", JString "");
        ("database_connection_string", JString "");
        ("key_file", JString ""); ("listen_address", JString "");
        ("loggregator", JObject []); ("debug_address", JString "") ]%string)
  else if String.eqb content unknown_keys then
    Some (JObject [ ("listen_port", JNumber (NInt 9090));
                    ("comment", JString "staging") ]%string)
  else if String.eqb content bad_driver then
    Some (JObject [ ("listen_address", JString "1.2.3.4:9090");
                    ("database_driver", JNumber (NInt 5)) ]%string)
  else if String.eqb content address_then_driver then
    Some (JObject [ ("listen_address", JString "1.2.3.4:9090");
                    ("database_driver", JString "postgres") ]%string)
  else if String.eqb content driver_then_address then
    Some (JObject [ ("database_driver", JString "postgres");
                    ("listen_address", JString "1.2.3.4:9090") ]%string)
  else None.

Definition more_fs : FS :=
  <[ "serialized"%string := RegularFile serialized_zero ]>
  (<[ "unknown-keys"%string := RegularFile unknown_keys ]>
  (<[ "bad-driver"%string := RegularFile bad_driver ]>
  (<[ "address-driver"%string := RegularFile address_then_driver ]>
  (<[ "driver-address"%string := RegularFile driver_then_address ]> ∅)))).

(** The loggregator section of these files is the empty object. *)
Definition more_NewLocketConfig (fs : FS) (configPath : string)
  : @LocketConfig unit * option error :=
  NewLocketConfig tt (fun _ l => (l, None)) more_scan ascii_equalFold
                  test_lager fs configPath.

End marshal.

(* ===================================================================== *)
(** ** The handler, with the logger it hands to its collaborators         *)
(* ===================================================================== *)

Module logged.
Import models handlers.

(** What reaches the log: a line of the handler's own session, a line the
    store wrote through [h.logger], which every store call is handed, or a
    line the scheduler wrote through the session logger, which
    [RegisterTTL] is handed. *)
Inductive Entry :=
| Own (l : LogLine)
| ByStore (msg : string)
| ByScheduler (session : string) (data : string * Request) (msg : string).

Definition own_line (e : Entry) : option LogLine :=
  match e with
  | Own l => Some l
  | _ => None
  end.

(** The two interfaces again, each method now also giving the lines it
    wrote through the logger it was handed. *)
Class LoggingDB (D : Type) := {
  store_Lock : D -> option Resource -> Z ->
               D * list string * (option db.Lock * option error);
  store_Release : D -> option Resource -> D * list string * option error;
  store_Fetch :
    D -> string -> D * list string * (option db.Lock * option error);
  store_FetchAll :
    D -> D * list string * (list (option db.Lock) * option error)
}.

Class LoggingPick (P : Type) := {
  pick_RegisterTTL : P -> option db.Lock -> P * list string
}.

Section Handler.
Context {D P : Type} `{!LoggingDB D} `{!LoggingPick P}.

Record locketHandler := mkHandler {
  logger : list Entry;
  db_ : D;
  lockPick : P
}.

Definition M (A : Type) : Type := locketHandler -> option A * locketHandler.

Definition ret {A} (a : A) : M A := fun h => (Some a, h).

Definition bind {A B} (m : M A) (k : A -> M B) : M B :=
  fun h => match m h with
           | (Some a, h') => k a h'
           | (None, h') => (None, h')
           end.

Definition panic {A} : M A := fun h => (None, h).

Definition defer {A} (d : M unit) (body : M A) : M A :=
  fun h => let '(r, h') := body h in (r, snd (d h')).

Definition write (es : list Entry) (h : locketHandler) : locketHandler :=
  {| logger := logger h ++ es; db_ := db_ h; lockPick := lockPick h |}.

Definition Info (session : string) (data : string * Request)
           (msg : string) : M unit :=
  fun h => (Some tt, write [Own (mkLogLine session data msg)] h).

Definition db_Lock (r : option Resource) (ttl : Z)
  : M (option db.Lock * option error) :=
  fun h => let '(d, msgs, out) := store_Lock (db_ h) r ttl in
           (Some out,
            {| logger := logger h ++ map ByStore msgs; db_ := d;
               lockPick := lockPick h |}).

Definition db_Release (r : option Resource) : M (option error) :=
  fun h => let '(d, msgs, out) := store_Release (db_ h) r in
           (Some out,
            {| logger := logger h ++ map ByStore msgs; db_ := d;
               lockPick := lockPick h |}).

Definition db_Fetch (key : string) : M (option db.Lock * option error) :=
  fun h => let '(d, msgs, out) := store_Fetch (db_ h) key in
           (Some out,
            {| logger := logger h ++ map ByStore msgs; db_ := d;
               lockPick := lockPick h |}).

Definition db_FetchAll : M (list (option db.Lock) * option error) :=
  fun h => let '(d, msgs, out) := store_FetchAll (db_ h) in
           (Some out,
            {| logger := logger h ++ map ByStore msgs; db_ := d;
               lockPick := lockPick h |}).

Definition lockPick_RegisterTTL (session : string)
           (data : string * Request) (l : option db.Lock) : M unit :=
  fun h => let '(p, msgs) := pick_RegisterTTL (lockPick h) l in
           (Some tt,
            {| logger := logger h ++ map (ByScheduler session data) msgs;
               db_ := db_ h; lockPick := p |}).

Notation "x <- m ;; k" := (bind m (fun x => k))
  (at level 100, m at next level, right associativity).
Notation "m ;;; k" := (bind m (fun _ => k))
  (at level 100, right associativity).

Definition Lock (req : LockRequest) : M (Result LockResponse) :=
  let session := "lock"%string in
  let data := ("req"%string, ReqLock req) in
  Info session data "started" ;;;
  defer (Info session data "complete")
    (if LockRequest_TtlInSeconds req <=? 0 then
       ret (None, Some ErrInvalidTTL)
     else
       out <- db_Lock (LockRequest_Resource req)
                      (LockRequest_TtlInSeconds req) ;;
       match snd out with
       | Some err => ret (None, Some err)
       | None =>
           lockPick_RegisterTTL session data (fst out) ;;;
           ret (Some mkLockResponse, None)
       end).

Definition Release (req : ReleaseRequest) : M (Result ReleaseResponse) :=
  let session := "release"%string in
  let data := ("request"%string, ReqRelease req) in
  Info session data "started" ;;;
  defer (Info session data "complete")
    (err <- db_Release (ReleaseRequest_Resource req) ;;
     match err with
     | Some e => ret (None, Some e)
     | None => ret (Some mkReleaseResponse, None)
     end).

Definition Fetch (req : FetchRequest) : M (Result FetchResponse) :=
  let session := "fetch"%string in
  let data := ("request"%string, ReqFetch req) in
  Info session data "started" ;;;
  defer (Info session data "complete")
    (out <- db_Fetch (FetchRequest_Key req) ;;
     match snd out with
     | Some e => ret (None, Some e)
     | None =>
         match fst out with
         | None => panic
         | Some lock => ret (Some (mkFetchResponse (db.Resource lock)), None)
         end
     end).

Definition FetchAll (req : FetchAllRequest) : M (Result FetchAllResponse) :=
  let session := "fetch-all"%string in
  let data := ("request"%string, ReqFetchAll req) in
  Info session data "started" ;;;
  defer (Info session data "complete")
    (out <- db_FetchAll ;;
     match snd out with
     | Some e => ret (None, Some e)
     | None =>
         match collect (fst out) [] with
         | None => panic
         | Some responses => ret (Some (mkFetchAllResponse responses), None)
         end
     end).

(** The same collaborators without their lines, and the same handler
    without the lines of its collaborators. *)
Definition quiet_db : db.LockDB D := {|
  db.Lock_ := fun d r ttl =>
    let '(d', _, out) := store_Lock d r ttl in (d', out);
  db.Release := fun d r =>
    let '(d', _, out) := store_Release d r in (d', out);
  db.Fetch := fun d key =>
    let '(d', _, out) := store_Fetch d key in (d', out);
  db.FetchAll := fun d =>
    let '(d', _, out) := store_FetchAll d in (d', out)
|}.

Definition quiet_pick : expiration.LockPick P := {|
  expiration.RegisterTTL := fun p l => fst (pick_RegisterTTL p l)
|}.

Definition quiet (h : locketHandler) : handlers.locketHandler D P :=
  {| handlers.logger := omap own_line (logger h);
     handlers.db_ := db_ h;
     handlers.lockPick := lockPick h;
     handlers.calls := [] |}.

(** What an operation leaves in the log between its two own lines. *)
Definition between_Lock (req : LockRequest) (h : locketHandler)
  : list Entry :=
  if LockRequest_TtlInSeconds req <=? 0 then []
  else
    let '(_, msgs, out) := store_Lock (db_ h) (LockRequest_Resource req)
                                 (LockRequest_TtlInSeconds req) in
    map ByStore msgs ++
    match snd out with
    | Some _ => []
    | None =>
        map (ByScheduler "lock" ("req"%string, ReqLock req))
            (snd (pick_RegisterTTL (lockPick h) (fst out)))
    end.

Definition between_Release (req : ReleaseRequest) (h : locketHandler)
  : list Entry :=
  let '(_, msgs, _) := store_Release (db_ h) (ReleaseRequest_Resource req) in
  map ByStore msgs.

Definition between_Fetch (req : FetchRequest) (h : locketHandler)
  : list Entry :=
  let '(_, msgs, _) := store_Fetch (db_ h) (FetchRequest_Key req) in
  map ByStore msgs.

Definition between_FetchAll (h : locketHandler) : list Entry :=
  let '(_, msgs, _) := store_FetchAll (db_ h) in
  map ByStore msgs.

End Handler.

Arguments locketHandler : clear implicits.

(** A store and a scheduler that write as they work, over the in-memory
    ones. *)
#[global] Instance Store_LoggingDB : LoggingDB memdb.Store := {|
  store_Lock := fun s r ttl =>
    let '(s', out) := memdb.Reserve s r ttl in
    (s', ["reserve"; "reserved"]%string, out);
  store_Release := fun s r =>
    let '(s', out) := memdb.Release s r in (s', ["release"]%string, out);
  store_Fetch := fun s key =>
    let '(s', out) := memdb.Fetch s key in (s', ["fetch"]%string, out);
  store_FetchAll := fun s =>
    let '(s', out) := memdb.FetchAll s in (s', ["fetch-all"]%string, out)
|}.

#[global] Instance Timers_LoggingPick : LoggingPick memdb.Timers := {|
  pick_RegisterTTL := fun t l => (memdb.arm t l, ["registering-ttl"]%string)
|}.

Definition fresh : locketHandler memdb.Store memdb.Timers :=
  {| logger := []; db_ := memdb.empty; lockPick := [] |}.

End logged.

(* ===================================================================== *)
(** ** The handler: what each operation does                              *)
(* ===================================================================== *)

Import models handlers.

Section HandlerFacts.
Context {D P : Type} `{!db.LockDB D} `{!expiration.LockPick P}.
Implicit Types (h : locketHandler D P).

Lemma collect_all (locks : list db.Lock) (acc : list (option Resource)) :
  collect (map Some locks) acc = Some (acc ++ map db.Resource locks).
Proof.
  revert acc; induction locks as [|l locks IH]; intros acc; simpl.
  - by rewrite app_nil_r.
  - rewrite IH. by rewrite <- app_assoc.
Qed.

(** Lock with a rejected ttl: nothing but the two log lines. *)
Lemma Lock_invalid_ttl h (req : LockRequest) :
  LockRequest_TtlInSeconds req <= 0 ->
  Lock req h =
    (Some (None, Some ErrInvalidTTL),
     {| logger := logger h ++ [started "lock" ("req"%string, ReqLock req)]
                           ++ [complete "lock" ("req"%string, ReqLock req)];
        db_ := db_ h; lockPick := lockPick h; calls := calls h |}).
Proof.
  intros Hle. unfold Lock, bind, defer, Info, ret; simpl.
  apply Z.leb_le in Hle. rewrite Hle. simpl.
  by rewrite <- app_assoc.
Qed.

(** Lock with an accepted ttl: the store is asked, and the scheduler only
    when the store did not fail. *)
Lemma Lock_valid_ttl h (req : LockRequest) :
  0 < LockRequest_TtlInSeconds req ->
  Lock req h =
    let '(d, out) := db.Lock_ (db_ h) (LockRequest_Resource req)
                              (LockRequest_TtlInSeconds req) in
    let asked := CallDBLock (LockRequest_Resource req)
                            (LockRequest_TtlInSeconds req) out in
    let lines := logger h ++ [started "lock" ("req"%string, ReqLock req)]
                          ++ [complete "lock" ("req"%string, ReqLock req)] in
    match snd out with
    | Some err =>
        (Some (None, Some err),
         {| logger := lines; db_ := d; lockPick := lockPick h;
            calls := calls h ++ [asked] |})
    | None =>
        (Some (Some mkLockResponse, None),
         {| logger := lines; db_ := d;
            lockPick := expiration.RegisterTTL (lockPick h) (fst out);
            calls := calls h ++ [asked] ++ [CallRegisterTTL (fst out)] |})
    end.
Proof.
  intros Hlt. unfold Lock, bind, defer, Info, ret, db_Lock,
    lockPick_RegisterTTL; simpl.
  assert ((LockRequest_TtlInSeconds req <=? 0) = false) as ->
    by (apply Z.leb_gt; lia).
  cbn. destruct (db.Lock_ (db_ h) _ _) as [d [lk [e|]]]; cbn;
    rewrite <- ?app_assoc; reflexivity.
Qed.

Lemma Release_unfold h (req : ReleaseRequest) :
  Release req h =
    let '(d, err) := db.Release (db_ h) (ReleaseRequest_Resource req) in
    (Some (match err with
           | Some e => (None, Some e)
           | None => (Some mkReleaseResponse, None)
           end),
     {| logger := logger h
                  ++ [started "release" ("request"%string, ReqRelease req)]
                  ++ [complete "release" ("request"%string, ReqRelease req)];
        db_ := d; lockPick := lockPick h;
        calls := calls h
                 ++ [CallDBRelease (ReleaseRequest_Resource req) err] |}).
Proof.
  unfold Release, bind, defer, Info, ret, db_Release; cbn.
  destruct (db.Release (db_ h) _) as [d [e|]]; cbn;
    rewrite <- ?app_assoc; reflexivity.
Qed.

Lemma Fetch_unfold h (req : FetchRequest) :
  Fetch req h =
    let '(d, out) := db.Fetch (db_ h) (FetchRequest_Key req) in
    (match snd out, fst out with
     | Some e, _ => Some (None, Some e)
     | None, Some lock => Some (Some (mkFetchResponse (db.Resource lock)), None)
     | None, None => None
     end,
     {| logger := logger h
                  ++ [started "fetch" ("request"%string, ReqFetch req)]
                  ++ [complete "fetch" ("request"%string, ReqFetch req)];
        db_ := d; lockPick := lockPick h;
        calls := calls h ++ [CallDBFetch (FetchRequest_Key req) out] |}).
Proof.
  unfold Fetch, bind, defer, Info, ret, panic, db_Fetch; cbn.
  destruct (db.Fetch (db_ h) _) as [d [[lk|] [e|]]]; cbn;
    rewrite <- ?app_assoc; reflexivity.
Qed.

Lemma FetchAll_unfold h (req : FetchAllRequest) :
  FetchAll req h =
    let '(d, out) := db.FetchAll (db_ h) in
    (match snd out with
     | Some e => Some (None, Some e)
     | None =>
         match collect (fst out) [] with
         | Some responses => Some (Some (mkFetchAllResponse responses), None)
         | None => None
         end
     end,
     {| logger := logger h
                  ++ [started "fetch-all" ("request"%string, ReqFetchAll req)]
                  ++ [complete "fetch-all" ("request"%string, ReqFetchAll req)];
        db_ := d; lockPick := lockPick h;
        calls := calls h ++ [CallDBFetchAll out] |}).
Proof.
  unfold FetchAll, bind, defer, Info, ret, panic, db_FetchAll; cbn.
  destruct (db.FetchAll (db_ h)) as [d [locks [e|]]]; cbn;
    [|destruct (collect locks [])]; cbn;
    rewrite <- ?app_assoc; reflexivity.
Qed.

End HandlerFacts.

(* ===================================================================== *)
(** ** The handler: the properties of the specification                   *)
(* ===================================================================== *)

Section HandlerClaims.
Context {D P : Type} `{!db.LockDB D} `{!expiration.LockPick P}.
Implicit Types (h : locketHandler D P).

(** C1.  A Lock request with a ttl above zero asks the store first.  When
    the store succeeds, the handler then calls RegisterTTL, once, with
    exactly the record the store returned, and returns an empty response
    and no error; when the store returns an error, RegisterTTL is not
    called and the scheduler is left as it was. *)
Theorem Lock_reserves_then_registers h (req : LockRequest) :
  0 < LockRequest_TtlInSeconds req ->
  let '(d, out) := db.Lock_ (db_ h) (LockRequest_Resource req)
                            (LockRequest_TtlInSeconds req) in
  let '(result, h') := Lock req h in
  let asked := CallDBLock (LockRequest_Resource req)
                          (LockRequest_TtlInSeconds req) out in
  db_ h' = d /\
  match snd out with
  | None =>
      result = Some (Some mkLockResponse, None) /\
      calls h' = calls h ++ [asked; CallRegisterTTL (fst out)] /\
      lockPick h' = expiration.RegisterTTL (lockPick h) (fst out)
  | Some err =>
      calls h' = calls h ++ [asked] /\
      lockPick h' = lockPick h
  end.
Proof.
  intros Hlt. rewrite (Lock_valid_ttl h req Hlt).
  destruct (db.Lock_ (db_ h) _ _) as [d [lk [e|]]]; cbn; auto.
Qed.

(** Whatever the store would answer, a Lock request is answered with
    ErrInvalidTTL without the store being asked exactly when its ttl is
    zero or less. *)
Lemma Lock_rejects_before_store h (req : LockRequest) :
  (fst (Lock req h) = Some (None, Some ErrInvalidTTL) /\
   calls (snd (Lock req h)) = calls h)
  <-> LockRequest_TtlInSeconds req <= 0.
Proof.
  split.
  - intros [_ Hcalls].
    destruct (Z_le_gt_dec (LockRequest_TtlInSeconds req) 0) as [|Hgt]; [done|].
    exfalso. revert Hcalls. rewrite Lock_valid_ttl by lia.
    destruct (db.Lock_ (db_ h) _ _) as [d [lk [e|]]]; cbn; intros Hc;
      apply (f_equal length) in Hc; rewrite !length_app in Hc;
      cbn in Hc; lia.
  - intros Hle. by rewrite Lock_invalid_ttl.
Qed.

(** C2.  Lock returns ErrInvalidTTL whenever the ttl of the request is zero
    or less, and then the store and the scheduler are neither called nor
    changed (the handler only writes its two log lines).  Conversely, Lock
    answers ErrInvalidTTL without a store call only when the ttl is zero or
    less; with a ttl above zero the store is asked, and Lock returns
    ErrInvalidTTL exactly when the store itself answered it.  So, for a
    store that does not answer ErrInvalidTTL to a ttl above zero (the store
    contract has no such result), a Lock that returns ErrInvalidTTL had a
    ttl of zero or less. *)
Theorem Lock_invalid_ttl_iff h (req : LockRequest) :
  let ttl := LockRequest_TtlInSeconds req in
  let answer := snd (snd (db.Lock_ (db_ h) (LockRequest_Resource req) ttl)) in
  (ttl <= 0 ->
   fst (Lock req h) = Some (None, Some ErrInvalidTTL) /\
   calls (snd (Lock req h)) = calls h /\
   db_ (snd (Lock req h)) = db_ h /\
   lockPick (snd (Lock req h)) = lockPick h) /\
  ((fst (Lock req h) = Some (None, Some ErrInvalidTTL) /\
    calls (snd (Lock req h)) = calls h) <-> ttl <= 0) /\
  (0 < ttl ->
   (snd <$> fst (Lock req h) = Some (Some ErrInvalidTTL)
    <-> answer = Some ErrInvalidTTL)) /\
  ((0 < ttl -> answer <> Some ErrInvalidTTL) ->
   snd <$> fst (Lock req h) = Some (Some ErrInvalidTTL) -> ttl <= 0).
Proof.
  intros ttl answer.
  assert (0 < ttl ->
          (snd <$> fst (Lock req h) = Some (Some ErrInvalidTTL)
           <-> answer = Some ErrInvalidTTL)) as Hvalid.
  { intros Hlt. subst answer ttl. rewrite Lock_valid_ttl by done.
    destruct (db.Lock_ (db_ h) _ _) as [d [lk [e|]]]; cbn;
      split; congruence. }
  split; [|split; [|split]].
  - intros Hle. by rewrite Lock_invalid_ttl.
  - apply Lock_rejects_before_store.
  - exact Hvalid.
  - intros Hstore Hret.
    destruct (Z_le_gt_dec ttl 0) as [|Hgt]; [done|].
    exfalso. apply (Hstore ltac:(lia)). apply Hvalid; [lia | exact Hret].
Qed.

(** C3, as the code has it.  The handler hands no filter to the store and
    applies none: two FetchAll requests that differ in their type_filter
    make the same store call and get the same answer, and on success the
    resources of the answer are the resources of the records the store
    returned, all of them, in their order and whatever their type. *)
Theorem FetchAll_ignores_type_filter h (req req' : FetchAllRequest)
        d (locks : list db.Lock) :
  db.FetchAll (db_ h) = (d, (map Some locks, None)) ->
  fst (FetchAll req h) = fst (FetchAll req' h) /\
  calls (snd (FetchAll req h)) = calls (snd (FetchAll req' h)) /\
  calls (snd (FetchAll req h))
    = calls h ++ [CallDBFetchAll (map Some locks, None)] /\
  fst (FetchAll req h)
    = Some (Some (mkFetchAllResponse (map db.Resource locks)), None).
Proof.
  intros Hdb. rewrite !FetchAll_unfold, Hdb; cbn.
  rewrite collect_all; cbn. repeat split.
Qed.

(** C4.  An error of the store comes back from the handler as it is, with
    a nil response, in each of the four operations. *)
Theorem store_errors_propagate h :
  (forall (req : LockRequest) err,
      0 < LockRequest_TtlInSeconds req ->
      snd (snd (db.Lock_ (db_ h) (LockRequest_Resource req)
                         (LockRequest_TtlInSeconds req))) = Some err ->
      fst (Lock req h) = Some (None, Some err)) /\
  (forall (req : ReleaseRequest) err,
      snd (db.Release (db_ h) (ReleaseRequest_Resource req)) = Some err ->
      fst (Release req h) = Some (None, Some err)) /\
  (forall (req : FetchRequest) err,
      snd (snd (db.Fetch (db_ h) (FetchRequest_Key req))) = Some err ->
      fst (Fetch req h) = Some (None, Some err)) /\
  (forall (req : FetchAllRequest) err,
      snd (snd (db.FetchAll (db_ h))) = Some err ->
      fst (FetchAll req h) = Some (None, Some err)).
Proof.
  repeat split.
  - intros req err Hlt. rewrite Lock_valid_ttl by done.
    destruct (db.Lock_ (db_ h) _ _) as [d [lk [e|]]]; cbn; congruence.
  - intros req err. rewrite Release_unfold.
    destruct (db.Release (db_ h) _) as [d [e|]]; cbn; congruence.
  - intros req err. rewrite Fetch_unfold.
    destruct (db.Fetch (db_ h) _) as [d [lk [e|]]]; cbn; congruence.
  - intros req err. rewrite FetchAll_unfold.
    destruct (db.FetchAll (db_ h)) as [d [locks [e|]]]; cbn; congruence.
Qed.

(** C5.  Fetch makes one call, the store's Fetch for the key of the
    request, and no other (no Lock, no Release, no RegisterTTL): the store
    is left as that lookup leaves it and the scheduler is untouched.  When the lookup yields a record, the
    response holds that record's resource and the error is nil. *)
Theorem Fetch_returns_the_record h (req : FetchRequest) :
  let '(d, out) := db.Fetch (db_ h) (FetchRequest_Key req) in
  let '(result, h') := Fetch req h in
  calls h' = calls h ++ [CallDBFetch (FetchRequest_Key req) out] /\
  db_ h' = d /\
  lockPick h' = lockPick h /\
  (forall lock, out = (Some lock, None) ->
     result = Some (Some (mkFetchResponse (db.Resource lock)), None)).
Proof.
  rewrite Fetch_unfold.
  destruct (db.Fetch (db_ h) _) as [d [lk e]]; cbn.
  repeat split. intros lock [= -> ->]. reflexivity.
Qed.

(** C10.  When the store returns its records without an error, FetchAll
    returns one resource per record, in the order of the records, each the
    resource of its record, and a nil error; with no record the list of
    resources is empty. *)
Theorem FetchAll_maps_records h (req : FetchAllRequest) d
        (locks : list db.Lock) :
  db.FetchAll (db_ h) = (d, (map Some locks, None)) ->
  exists resources,
    fst (FetchAll req h) = Some (Some (mkFetchAllResponse resources), None) /\
    resources = map db.Resource locks /\
    length resources = length locks /\
    (forall i lock, locks !! i = Some lock ->
                    resources !! i = Some (db.Resource lock)) /\
    (locks = [] -> resources = []).
Proof.
  intros Hdb. exists (map db.Resource locks).
  rewrite FetchAll_unfold, Hdb; cbn. rewrite collect_all; cbn.
  repeat split.
  - by rewrite length_map.
  - intros i lock Hi. by rewrite list_lookup_fmap, Hi.
  - by intros ->.
Qed.

End HandlerClaims.

(* ===================================================================== *)
(** ** The handler on the in-memory store                                 *)
(* ===================================================================== *)

Import scenarios.

(** An accepted Lock on the empty store, then a Lock by another owner on
    the same key: the first arms a timer for the stored record, the second
    collides and arms nothing. *)
Lemma Lock_reserves_then_registers_witness :
  0 < 10 /\
  (let '(result, h') := Lock (mkLockRequest (Some res_lock) 10) fresh in
   result = Some (Some mkLockResponse, None) /\
   calls h' = [CallDBLock (Some res_lock) 10 (Some first_record, None);
               CallRegisterTTL (Some first_record)] /\
   lockPick h' = [(Some "k1"%string, "0"%string)]) /\
  (let '(result, h') :=
     Lock (mkLockRequest (Some (mkResource "k1" "B" "" "")) 10) two_types in
   calls h' = calls two_types
              ++ [CallDBLock (Some (mkResource "k1" "B" "" "")) 10
                             (None, Some ErrLockCollision)] /\
   lockPick h' = lockPick two_types).
Proof.
  split; [reflexivity|]. split.
  - pose proof (Lock_reserves_then_registers
                  fresh (mkLockRequest (Some res_lock) 10) eq_refl) as H.
    vm_compute in H. vm_compute. destruct H as (_ & H1 & H2 & H3).
    exact (conj H1 (conj H2 H3)).
  - pose proof (Lock_reserves_then_registers
                  two_types
                  (mkLockRequest (Some (mkResource "k1" "B" "" "")) 10)
                  eq_refl) as H.
    vm_compute in H. vm_compute. destruct H as (_ & H1 & H2).
    exact (conj H1 H2).
Defined.

(** A request with ttl 0 on the empty store, and one with ttl 10, which
    the store accepts. *)
Lemma Lock_invalid_ttl_iff_witness :
  fst (Lock (mkLockRequest (Some res_lock) 0) fresh)
    = Some (None, Some ErrInvalidTTL) /\
  calls (snd (Lock (mkLockRequest (Some res_lock) 0) fresh)) = [] /\
  db_ (snd (Lock (mkLockRequest (Some res_lock) 0) fresh)) = memdb.empty /\
  snd (snd (db.Lock_ (db_ fresh) (Some res_lock) 10)) <> Some ErrInvalidTTL /\
  snd <$> fst (Lock (mkLockRequest (Some res_lock) 10) fresh)
    <> Some (Some ErrInvalidTTL).
Proof.
  destruct (Lock_invalid_ttl_iff fresh (mkLockRequest (Some res_lock) 0))
    as (Hrejected & _).
  destruct (Hrejected ltac:(cbn; lia)) as (H1 & H2 & H3 & _).
  destruct (Lock_invalid_ttl_iff fresh (mkLockRequest (Some res_lock) 10))
    as (_ & _ & _ & Honly).
  assert (snd (snd (db.Lock_ (db_ fresh) (Some res_lock) 10))
          <> Some ErrInvalidTTL) as Hstore by (vm_compute; discriminate).
  split; [exact H1|]. split; [exact H2|]. split; [exact H3|].
  split; [exact Hstore|].
  intros Hret. pose proof (Honly (fun _ => Hstore) Hret) as Hle.
  cbn in Hle. lia.
Defined.

(** C3, as the claim states it, fails: with a record of type "lock" and a
    record of type "presence" in the store, a FetchAll request whose
    type_filter is "lock" is answered with both resources, not with the one
    whose type is "lock". *)
Lemma FetchAll_type_filter_counterexample :
  fst (FetchAll (mkFetchAllRequest "lock") two_types)
    = Some (Some (mkFetchAllResponse [Some res_lock; Some res_presence]), None)
  /\ filter (fun r => type_filter_matches "lock" r = true)
            [Some res_lock; Some res_presence] = [Some res_lock]
  /\ [Some res_lock; Some res_presence]
     <> filter (fun r => type_filter_matches "lock" r = true)
               [Some res_lock; Some res_presence].
Proof.
  split; [vm_compute; reflexivity|].
  split; [vm_compute; reflexivity|].
  vm_compute. discriminate.
Qed.

(** The two requests of the counterexample, with and without a filter. *)
Lemma FetchAll_ignores_type_filter_witness :
  db.FetchAll (db_ two_types)
    = (db_ two_types, (map Some [first_record; second_record], None)) /\
  fst (FetchAll (mkFetchAllRequest "lock") two_types)
    = fst (FetchAll (mkFetchAllRequest "") two_types) /\
  fst (FetchAll (mkFetchAllRequest "lock") two_types)
    = Some (Some (mkFetchAllResponse [Some res_lock; Some res_presence]),
            None).
Proof.
  assert (db.FetchAll (db_ two_types)
          = (db_ two_types, (map Some [first_record; second_record], None)))
    as Hdb by (vm_compute; reflexivity).
  split; [exact Hdb|].
  destruct (FetchAll_ignores_type_filter two_types
              (mkFetchAllRequest "lock") (mkFetchAllRequest "") _ _ Hdb)
    as (Hsame & _ & _ & Hall).
  split; [exact Hsame | exact Hall].
Defined.

(** A store that is down fails every operation with its own error. *)
Lemma store_errors_propagate_witness :
  fst (Lock (mkLockRequest (Some res_lock) 10) store_down)
    = Some (None, Some (errors_New "connection reset")) /\
  fst (Release (mkReleaseRequest (Some res_lock)) store_down)
    = Some (None, Some (errors_New "connection reset")) /\
  fst (Fetch (mkFetchRequest "k1") store_down)
    = Some (None, Some (errors_New "connection reset")) /\
  fst (FetchAll (mkFetchAllRequest "") store_down)
    = Some (None, Some (errors_New "connection reset")).
Proof.
  destruct (store_errors_propagate store_down) as (HL & HR & HF & HA).
  split; [|split; [|split]].
  - apply HL; [cbn; lia | reflexivity].
  - apply HR; reflexivity.
  - apply HF; reflexivity.
  - apply HA; reflexivity.
Defined.

(** Fetch of a stored key. *)
Lemma Fetch_returns_the_record_witness :
  fst (Fetch (mkFetchRequest "k1") two_types)
    = Some (Some (mkFetchResponse (Some res_lock)), None) /\
  db_ (snd (Fetch (mkFetchRequest "k1") two_types)) = db_ two_types.
Proof.
  pose proof (Fetch_returns_the_record two_types (mkFetchRequest "k1")) as H.
  change (db.Fetch (db_ two_types) (FetchRequest_Key (mkFetchRequest "k1")))
    with (memdb.Fetch (db_ two_types) "k1") in H.
  assert (memdb.Fetch (db_ two_types) "k1"
          = (db_ two_types, (Some first_record, None))) as E
    by (vm_compute; reflexivity).
  rewrite E in H.
  destruct (Fetch (mkFetchRequest "k1") two_types) as [result h'].
  destruct H as (_ & Hdb & _ & Hres).
  split; [exact (Hres first_record eq_refl) | exact Hdb].
Defined.

(** FetchAll over the two stored records, and over the empty store. *)
Lemma FetchAll_maps_records_witness :
  db.FetchAll (db_ two_types)
    = (db_ two_types, (map Some [first_record; second_record], None)) /\
  fst (FetchAll (mkFetchAllRequest "") two_types)
    = Some (Some (mkFetchAllResponse [Some res_lock; Some res_presence]), None)
  /\ fst (FetchAll (mkFetchAllRequest "") fresh)
    = Some (Some (mkFetchAllResponse []), None).
Proof.
  assert (db.FetchAll (db_ two_types)
          = (db_ two_types, (map Some [first_record; second_record], None)))
    as Hdb by (vm_compute; reflexivity).
  split; [exact Hdb|]. split.
  - destruct (FetchAll_maps_records two_types (mkFetchAllRequest "") _ _ Hdb)
      as (resources & Hres & -> & _). exact Hres.
  - assert (db.FetchAll (db_ fresh) = (memdb.empty, (map Some [], None)))
      as Hnone by (vm_compute; reflexivity).
    destruct (FetchAll_maps_records fresh (mkFetchAllRequest "") _ _ Hnone)
      as (resources & Hres & _ & _ & _ & Hnil).
    rewrite (Hnil eq_refl) in Hres. exact Hres.
Defined.

(* ===================================================================== *)
(** ** The configuration file: how a field gets its content               *)
(* ===================================================================== *)

Section ConfigFacts.
Import config.
Context {Loggregator : Type}.
Variable zero_Loggregator : Loggregator.
Variable decode_Loggregator :
  JValue -> Loggregator -> Loggregator * option config.error.
Variable scan : string -> option JValue.
Variable equalFold : string -> string -> bool.
Variable DefaultLagerConfig : LagerConfig.

Abbreviation Cfg := (@LocketConfig Loggregator).
Abbreviation field_of := (field_of_key equalFold).
Abbreviation decode1 := (decode_field decode_Loggregator).
Abbreviation member1 := (decode_member decode_Loggregator equalFold).
Abbreviation assign1 := (assign decode_Loggregator).
Abbreviation members1 := (members_of equalFold).
Abbreviation accepted1 := (accepted decode_Loggregator).
Abbreviation Default := (DefaultLocketConfig zero_Loggregator DefaultLagerConfig).
Abbreviation New :=
  (NewLocketConfig zero_Loggregator decode_Loggregator scan equalFold
                   DefaultLagerConfig).

Lemma get_set_same (f : Field) (v : FieldValue) (c : Cfg) :
  same_kind (get f c) v = true -> get f (set f v c) = v.
Proof. destruct f, v; cbn; intros; try discriminate; reflexivity. Qed.

Lemma get_set_other (f g : Field) (v : FieldValue) (c : Cfg) :
  f <> g -> get g (set f v c) = get g c.
Proof. destruct f, g, v; cbn; intros; try congruence; reflexivity. Qed.

Lemma decode_field_kind (f : Field) (v : JValue) (old : FieldValue) :
  same_kind old (fst (decode1 f v old)) = true.
Proof.
  unfold decode_field.
  destruct v as [ | b | [z|lit] | s | items | members ], old as [s'|i|l]; cbn;
    try reflexivity;
    try (destruct (int_ok z); reflexivity);
    destruct (decode_Loggregator _ l); reflexivity.
Qed.

(** One member touches the field its key addresses and no other. *)
Lemma decode_member_get (g : Field) (c : Cfg) saved (m : string * JValue) :
  get g (fst (member1 (c, saved) m)) =
    if bool_decide (field_of (fst m) = Some g)
    then assign1 g (get g c) (snd m)
    else get g c.
Proof.
  unfold decode_member, assign.
  destruct (field_of (fst m)) as [f|] eqn:Ef.
  - destruct (decode1 f (snd m) (get f c)) as [v e] eqn:Ed; cbn.
    case_bool_decide as Hfg.
    + injection Hfg as ->. rewrite Ed; cbn.
      apply get_set_same. pose proof (decode_field_kind g (snd m) (get g c)) as Hk.
      by rewrite Ed in Hk.
    + apply get_set_other. congruence.
  - cbn. by rewrite bool_decide_eq_false_2.
Qed.

Lemma decode_member_error (c : Cfg) saved (m : string * JValue) e :
  saved = Some e -> snd (member1 (c, saved) m) = Some e.
Proof.
  intros ->. unfold decode_member.
  destruct (field_of (fst m)) as [f|]; [|reflexivity].
  destruct (decode1 f (snd m) (get f c)); reflexivity.
Qed.

(** Over the whole object, a field is the result of its own members, in the
    order of the file, starting from what it held. *)
Lemma fold_member_get (g : Field) (members : list (string * JValue))
      (c : Cfg) saved :
  get g (fst (fold_left member1 members (c, saved))) =
    fold_left (assign1 g) (members1 g members) (get g c).
Proof.
  revert c saved; induction members as [|m members IH]; intros c saved.
  - reflexivity.
  - cbn [fold_left]. destruct (member1 (c, saved) m) as [c' saved'] eqn:Em.
    rewrite IH. pose proof (decode_member_get g c saved m) as Hg.
    rewrite Em in Hg; cbn in Hg. rewrite Hg.
    unfold members_of. rewrite filter_cons.
    case_bool_decide as Hf.
    + rewrite decide_True by done. reflexivity.
    + rewrite decide_False by done. reflexivity.
Qed.

Lemma fold_member_error (members : list (string * JValue)) (c : Cfg) e :
  snd (fold_left member1 members (c, Some e)) = Some e.
Proof.
  revert c; induction members as [|m members IH]; intros c; [reflexivity|].
  cbn [fold_left]. destruct (member1 (c, Some e) m) as [c' saved'] eqn:Em.
  pose proof (decode_member_error c (Some e) m e eq_refl) as He.
  rewrite Em in He; cbn in He; subst saved'. apply IH.
Qed.

(** A file that decodes without an error had every member accepted. *)
Lemma fold_member_accepted (g : Field) (members : list (string * JValue))
      (c : Cfg) :
  snd (fold_left member1 members (c, None)) = None ->
  accepted1 g (members1 g members) (get g c).
Proof.
  revert c; induction members as [|m members IH]; intros c Hok; [exact I|].
  cbn [fold_left] in Hok.
  pose proof (decode_member_get g c None m) as Hg.
  destruct (member1 (c, None) m) as [c' [e|]] eqn:Em.
  { by rewrite fold_member_error in Hok. }
  cbn in Hg. unfold members_of. rewrite filter_cons.
  destruct (decide (field_of (fst m) = Some g)) as [Hf|Hf].
  - rewrite bool_decide_eq_true_2 in Hg by done.
    cbn [map fmap list_fmap accepted]. split.
    + unfold decode_member in Em. rewrite Hf in Em.
      destruct (decode1 g (snd m) (get g c)) as [v e]; cbn in *. congruence.
    + rewrite <- Hg. by apply IH.
  - rewrite bool_decide_eq_false_2 in Hg by done. rewrite <- Hg. by apply IH.
Qed.

Lemma accepted_last (g : Field) (vs : list JValue) (v : JValue)
      (old : FieldValue) :
  accepted1 g (vs ++ [v]) old ->
  snd (decode1 g v (fold_left (assign1 g) vs old)) = None.
Proof.
  revert old; induction vs as [|w vs IH]; intros old; cbn.
  - tauto.
  - intros [_ H]. by apply IH.
Qed.

(** A member that is accepted and is not null gives the field what it
    spells. *)
Lemma accepted_spelled (g : Field) (v : JValue) (old : FieldValue) :
  snd (decode1 g v old) = None -> v <> JNull -> spelled v (assign1 g old v).
Proof.
  unfold assign, decode_field.
  destruct v as [ | b | [z|lit] | s | items | members ], old as [s'|i|l]; cbn;
    try discriminate; try congruence; try reflexivity;
    try (destruct (int_ok z); cbn; try discriminate; reflexivity);
    destruct (decode_Loggregator _ l); cbn; intros; exact I.
Qed.

(** C9.  NewLocketConfig returns the zero LocketConfig with an error when
    the file does not open, when its content is not a JSON value, when that
    value is neither an object nor null, and whenever it returns an error at
    all.  When it returns no error, the file held a JSON value, and every
    field is the result of the members of the file that address it, applied
    in order to the default: a field no member addresses keeps its default
    ("mysql" for DatabaseDriver, lager's default for the lager config), and a
    field whose last member is not null holds what that member spells (a
    null member leaves a field as it is). *)
Theorem NewLocketConfig_zero_or_overridden_defaults
        (fs : FS) (configPath : string) :
  (fs !! configPath = None ->
   New fs configPath = (zero zero_Loggregator,
                        Some (PathError "open" configPath))) /\
  (forall content,
      fs !! configPath = Some (RegularFile content) ->
      scan content = None ->
      New fs configPath = (zero zero_Loggregator, Some SyntaxError)) /\
  (forall content v,
      fs !! configPath = Some (RegularFile content) ->
      scan content = Some v ->
      v <> JNull -> (forall members, v <> JObject members) ->
      New fs configPath
        = (zero zero_Loggregator,
           Some (UnmarshalTypeError (kind_of v) "LocketConfig"))) /\
  (forall c e, New fs configPath = (c, Some e) -> c = zero zero_Loggregator) /\
  (forall c,
      New fs configPath = (c, None) ->
      exists content v,
        fs !! configPath = Some (RegularFile content) /\
        scan content = Some v /\
        forall f,
          get f c = fold_left (assign1 f) (members1 f (object_members v))
                              (get f Default) /\
          (members1 f (object_members v) = [] -> get f c = get f Default) /\
          (forall vs last,
              members1 f (object_members v) = vs ++ [last] ->
              last <> JNull -> spelled last (get f c))) /\
  DatabaseDriver Default = "mysql"%string /\
  LagerConfig_ Default = DefaultLagerConfig.
Proof.
  unfold NewLocketConfig, os_Open, Decode.
  split; [|split; [|split; [|split; [|split; [|split]]]]].
  - intros ->. reflexivity.
  - intros content -> Hscan. cbn. by rewrite Hscan.
  - intros content v -> Hscan Hnull Hobj. cbn. rewrite Hscan.
    destruct v; cbn; try reflexivity; [congruence | by destruct (Hobj members)].
  - intros c e. destruct (fs !! configPath) as [[content|]|]; cbn.
    + destruct (scan content) as [v|]; [|congruence].
      destruct (unmarshal _ _ _ _) as [c' [e'|]]; congruence.
    + congruence.
    + congruence.
  - intros c. destruct (fs !! configPath) as [[content|]|]; cbn;
      [|discriminate..].
    destruct (scan content) as [v|] eqn:Escan; [|discriminate].
    destruct (unmarshal _ _ _ _) as [c' [e'|]] eqn:Eun; [discriminate|].
    intros [= ->]. exists content, v. split; [reflexivity|].
    split; [exact Escan|]. intros f.
    assert (get f c = fold_left (assign1 f) (members1 f (object_members v))
                                (get f Default)
            /\ accepted1 f (members1 f (object_members v)) (get f Default))
      as [Hget Hacc].
    { destruct v; cbn in Eun; try discriminate.
      - injection Eun as <-. split; [reflexivity | exact I].
      - unfold decode_object in Eun. cbn [object_members]. split.
        + rewrite <- (fold_member_get f members Default None).
          by rewrite Eun.
        + apply fold_member_accepted. by rewrite Eun. }
    split; [exact Hget|]. split.
    + intros Hnone. by rewrite Hget, Hnone.
    + intros vs last Hvs Hlast. rewrite Hget, Hvs, fold_left_app. cbn.
      apply accepted_spelled; [|exact Hlast].
      apply accepted_last. by rewrite <- Hvs.
  - reflexivity.
  - reflexivity.
Qed.

End ConfigFacts.

(** *** The package's test, on the model *)

Import config.

(** "correctly parses the config file". *)
Example test_correctly_parses_the_config_file :
  test_NewLocketConfig test_fs "config-file-1" =
    ({| CaFile := ""; CertFile := "";
        ConsulCluster := "http://127.0.0.1:1234,http://127.0.0.1:12345";
        DatabaseConnectionString := "stuff";
        MaxOpenDatabaseConnections := 0;
        DatabaseDriver := "mysql"; DropsondePort := 0; KeyFile := "";
        ListenAddress := "1.2.3.4:9090"; SQLCACertFile := "";
        LoggregatorConfig := tt;
        DebugServerConfig_ := mkDebugServerConfig "some-more-stuff";
        LagerConfig_ := mkLagerConfig "debug" |}, None).
Proof. vm_compute. reflexivity. Qed.

(** "when the file does not exist" and "when the file does not contain
    valid json": an error, and the zero value with it. *)
Example test_returns_an_error :
  test_NewLocketConfig test_fs "foobar"
    = (zero tt, Some (PathError "open" "foobar")) /\
  test_NewLocketConfig test_fs "config-file-2" = (zero tt, Some SyntaxError) /\
  test_NewLocketConfig test_fs "/tmp" = (zero tt, Some (ReadError "/tmp")) /\
  test_NewLocketConfig test_fs "config-file-5"
    = (zero tt, Some (UnmarshalTypeError "string" "dropsonde_port")).
Proof. vm_compute. auto. Qed.

(** "uses default values when they are not specified". *)
Example test_uses_default_values :
  test_NewLocketConfig test_fs "config-file-3"
    = (test_DefaultLocketConfig, None).
Proof. vm_compute. reflexivity. Qed.

(** A missing file, and a file that sets the driver and the number of
    connections and nothing else. *)
Lemma NewLocketConfig_zero_or_overridden_defaults_witness :
  test_fs !! "foobar"%string = None /\
  test_NewLocketConfig test_fs "foobar"
    = (zero tt, Some (PathError "open" "foobar")) /\
  snd (test_NewLocketConfig test_fs "config-file-4") = None /\
  DatabaseDriver (fst (test_NewLocketConfig test_fs "config-file-4"))
    = "postgres"%string /\
  MaxOpenDatabaseConnections
    (fst (test_NewLocketConfig test_fs "config-file-4")) = 200 /\
  LagerConfig_ (fst (test_NewLocketConfig test_fs "config-file-4"))
    = test_lager.
Proof.
  pose proof (NewLocketConfig_zero_or_overridden_defaults
                tt (fun _ l => (l, None)) test_scan ascii_equalFold test_lager
                test_fs "foobar") as (Hmissing & _).
  pose proof (NewLocketConfig_zero_or_overridden_defaults
                tt (fun _ l => (l, None)) test_scan ascii_equalFold test_lager
                test_fs "config-file-4") as (_ & _ & _ & _ & Hok & _).
  assert (test_fs !! "foobar"%string = None) as Hnone
    by (vm_compute; reflexivity).
  split; [exact Hnone|]. split; [exact (Hmissing Hnone)|].
  assert (snd (test_NewLocketConfig test_fs "config-file-4") = None) as Hnil
    by (vm_compute; reflexivity).
  split; [exact Hnil|].
  destruct (test_NewLocketConfig test_fs "config-file-4") as [c e] eqn:Hc.
  cbn in Hnil. subst e. cbn [fst].
  destruct (Hok c Hc) as (content & v & Hfs & Hscan & Hfield).
  assert (content = overrides) as ->.
  { assert (test_fs !! "config-file-4"%string = Some (RegularFile overrides))
      as E by (vm_compute; reflexivity).
    congruence. }
  assert (v = JObject
                [ ("max_open_database_connections"%string, JNumber (NInt 200));
                  ("database_driver"%string, JString "postgres") ]) as ->.
  { assert (test_scan overrides
            = Some (JObject
                [ ("max_open_database_connections"%string, JNumber (NInt 200));
                  ("database_driver"%string, JString "postgres") ])) as E
      by (vm_compute; reflexivity).
    congruence. }
  split; [|split].
  - destruct (Hfield FDatabaseDriver) as (_ & _ & Hlast).
    symmetry. apply (Hlast [] (JString "postgres")); [reflexivity | discriminate].
  - destruct (Hfield FMaxOpenDatabaseConnections) as (_ & _ & Hlast).
    symmetry. apply (Hlast [] (JNumber (NInt 200))); [reflexivity | discriminate].
  - destruct (Hfield FLogLevel) as (_ & Habsent & _).
    specialize (Habsent eq_refl). cbn in Habsent.
    destruct (LagerConfig_ c) as [lvl]. cbn in Habsent.
    injection Habsent as ->. reflexivity.
Defined.

(* ===================================================================== *)
(** ** The lock runner                                                    *)
(* ===================================================================== *)

Import lock.

Section RunnerFacts.
Context {C : Type} `{!LocketClient C}.
Implicit Types (r : lockRunner C).

#[local] Arguments count : simpl never.

Lemma count_app (p : Action -> bool) (t u : list Action) :
  count p (t ++ u) = (count p t + count p u)%nat.
Proof. unfold count. by rewrite filter_app, length_app. Qed.

Lemma asleep_advance r (d : Z) : 0 <= d -> asleep r -> asleep (advance d r).
Proof.
  intros Hd (deadline & Ht & Hle). exists deadline. cbn. split; [done|lia].
Qed.

Ltac trace_facts :=
  repeat match goal with
    | |- _ /\ _ => split
    | |- Forall _ (_ ++ _) => apply Forall_app
    | |- Forall _ (_ :: _) => apply Forall_cons
    | |- Forall _ [] => apply Forall_nil
    | |- context [existsb _ (_ ++ _)] => rewrite existsb_app
    | |- context [count _ (_ ++ _)] => rewrite count_app
    end.

Lemma invariant_acquire l ttl interval r :
  lock_ r = l -> ttlInSeconds r = ttl -> retryInterval r = interval ->
  0 <= interval ->
  Forall (addressed r) (trace r) ->
  ready r = false -> exited r = None ->
  existsb lock_succeeded (trace r) = false ->
  existsb is_ActReady (trace r) = false ->
  count is_ActRelease (trace r) = 0%nat ->
  phase r = Acquiring ->
  invariant l ttl interval (acquire r).
Proof.
  intros Hl Httl Hint Hpos Haddr Hready Hexit Hsucc Hsig Hrel Hphase.
  unfold acquire, call_Lock.
  destruct (client_Lock (locker r) (lock_request r)) as [c [resp [e|]]];
    unfold invariant; cbn; rewrite ?Hphase; cbn.
  - trace_facts; cbn; rewrite ?Hsucc, ?Hsig, ?Hrel; subst;
      try done; try (by rewrite Hready).
    + eexists; split; [reflexivity|]. cbn. lia.
    + exists (trace r), e. by rewrite <- app_assoc.
  - trace_facts; cbn; rewrite ?Hsucc, ?Hsig, ?Hrel; subst;
      try done; try (by rewrite orb_true_r).
    eexists; split; [reflexivity|]. cbn. lia.
Qed.

Lemma invariant_renew l ttl interval r :
  lock_ r = l -> ttlInSeconds r = ttl -> retryInterval r = interval ->
  0 <= interval ->
  Forall (addressed r) (trace r) ->
  ready r = true -> exited r = None ->
  existsb lock_succeeded (trace r) = true ->
  existsb is_ActReady (trace r) = true ->
  count is_ActRelease (trace r) = 0%nat ->
  phase r = Holding ->
  invariant l ttl interval (renew r).
Proof.
  intros Hl Httl Hint Hpos Haddr Hready Hexit Hsucc Hsig Hrel Hphase.
  unfold renew, call_Lock.
  destruct (client_Lock (locker r) (lock_request r)) as [c [resp [e|]]];
    unfold invariant; cbn; rewrite ?Hphase; cbn.
  - trace_facts; cbn; rewrite ?Hsucc, ?Hsig, ?Hrel; subst; try done.
    by exists e.
  - trace_facts; cbn; rewrite ?Hsucc, ?Hsig, ?Hrel; subst; try done.
    eexists; split; [reflexivity|]. cbn. lia.
Qed.

Lemma invariant_Run (c : C) l ttl clock interval :
  0 <= interval ->
  invariant l ttl interval (Run (NewLockRunner c l ttl clock interval)).
Proof. intros Hpos. by apply invariant_acquire. Qed.

Lemma invariant_step l ttl interval r (ev : Event) :
  forward ev = true ->
  invariant l ttl interval r -> invariant l ttl interval (step r ev).
Proof.
  intros Hfwd Hinv.
  pose proof Hinv as (Hl & Httl & Hint & Hpos & Haddr & Hsucc & Hsig & Hphase).
  unfold step. destruct (phase r) eqn:Ephase, ev as [d|]; cbn in Hfwd;
    try exact Hinv.
  - (* ACQUIRING, the clock moves *)
    destruct Hphase as (Hready & Hexit & Hrel & Hsleep & Hlast).
    apply Z.leb_le in Hfwd.
    destruct (due (advance d r)) eqn:Edue.
    + apply invariant_acquire; cbn; try done; congruence.
    + unfold invariant; cbn. rewrite Ephase.
      repeat split; try done. by apply asleep_advance.
  - (* ACQUIRING, cancelled *)
    destruct Hphase as (Hready & Hexit & Hrel & Hsleep & Hlast).
    unfold invariant, exit; cbn.
    trace_facts; cbn; rewrite ?Hrel, ?orb_false_r; try done.
    vm_compute; lia.
  - (* HOLDING, the clock moves *)
    destruct Hphase as (Hready & Hexit & Hrel & Hsleep).
    apply Z.leb_le in Hfwd.
    destruct (due (advance d r)) eqn:Edue.
    + apply invariant_renew; cbn; try done; congruence.
    + unfold invariant; cbn. rewrite Ephase.
      repeat split; try done. by apply asleep_advance.
  - (* HOLDING, cancelled *)
    destruct Hphase as (Hready & Hexit & Hrel & Hsleep).
    unfold release.
    destruct (client_Release (locker r) (release_request r)) as [c out].
    unfold invariant, exit; cbn.
    trace_facts; cbn; rewrite ?Hrel, ?orb_false_r; try done.
Qed.

Lemma invariant_run_from l ttl interval (evs : list Event) r :
  forallb forward evs = true ->
  invariant l ttl interval r -> invariant l ttl interval (run_from r evs).
Proof.
  revert r; induction evs as [|ev evs IH]; intros r Hfwd Hinv; [done|].
  cbn in Hfwd. apply andb_prop in Hfwd as [Hev Hevs].
  cbn. apply IH; [done|]. by apply invariant_step.
Qed.

Lemma started_invariant l ttl interval r :
  started_with l ttl interval r -> invariant l ttl interval r.
Proof.
  intros (c & clock & evs & Hpos & Hfwd & ->).
  apply invariant_run_from; [done|]. by apply invariant_Run.
Qed.

(** A runner that has returned does nothing more. *)
Lemma terminated_stays r (evs : list Event) :
  phase r = Failed \/ phase r = Done -> run_from r evs = r.
Proof.
  intros Hend. induction evs as [|ev evs IH]; [done|].
  cbn. replace (step r ev) with r; [exact IH|].
  unfold step. by destruct Hend as [-> | ->], ev.
Qed.

(** The pending sleep is over once the clock has moved by the retry
    interval. *)
Lemma due_after_interval r :
  asleep r -> due (advance (retryInterval r) r) = true.
Proof.
  intros (deadline & Ht & Hle). unfold due; cbn. rewrite Ht.
  apply Z.leb_le. lia.
Qed.

Lemma lock_request_started l ttl interval r :
  invariant l ttl interval r -> lock_request r = mkLockRequest l ttl.
Proof. intros (Hl & Httl & _). unfold lock_request. by rewrite Hl, Httl. Qed.

Lemma release_request_started l ttl interval r :
  invariant l ttl interval r -> release_request r = mkReleaseRequest l.
Proof. intros (Hl & _). unfold release_request. by rewrite Hl. Qed.


(** C7.  While the runner holds the lock, the next renewal is at most one
    retry interval away: moving the clock by the retry interval ends the
    pending sleep.  When a renewal returns an error, the runner returns that
    error, at the moment of the renewal and without another sleep, and does
    nothing afterwards: no Lock is tried again. *)
Theorem renewal_error_is_fatal
        (c : C) l ttl clock interval (evs : list Event) :
  0 <= interval -> forallb forward evs = true ->
  let r := run_from (Run (NewLockRunner c l ttl clock interval)) evs in
  let req := mkLockRequest l ttl in
  phase r = Holding ->
  due (advance interval r) = true /\
  forall d e,
    0 <= d -> due (advance d r) = true ->
    snd (snd (client_Lock (locker r) req)) = Some e ->
    let r' := step r (Advance d) in
    trace r' = trace r ++ [ActLock req (Some e); ActExit (Some e)] /\
    phase r' = Failed /\ exited r' = Some (Some e) /\
    timer r' = None /\ now r' = now r + d /\
    forall evs', run_from r' evs' = r'.
Proof.
  intros Hpos Hfwd r req Ephase. subst req.
  assert (invariant l ttl interval r) as Hinv.
  { apply started_invariant. by exists c, clock, evs. }
  pose proof (lock_request_started _ _ _ _ Hinv) as Hreq.
  destruct Hinv as (Hl & Httl & Hint & _ & Haddr & Hsucc & Hsig & Hphase).
  rewrite Ephase in Hphase. destruct Hphase as (Hready & Hexit & Hrel & Hsleep).
  split.
  - rewrite <- Hint. by apply due_after_interval.
  - intros d e Hd Hdue Herr r'.
    assert (r' = exit Failed (Some e)
                   (fst (call_Lock (advance d r)))) as Hr'.
    { subst r'. unfold step. rewrite Ephase, Hdue. unfold renew, call_Lock.
      change (lock_request (advance d r)) with (lock_request r).
      rewrite Hreq. cbn [locker advance].
      destruct (client_Lock (locker r) _) as [c' [resp e']]; cbn in *.
      by subst e'. }
    rewrite Hr'. unfold call_Lock.
    change (lock_request (advance d r)) with (lock_request r).
    rewrite Hreq. cbn [locker advance].
    destruct (client_Lock (locker r) _) as [c' [resp e']]; cbn in *.
    subst e'. rewrite <- app_assoc. repeat split; try done.
    intros evs'. apply terminated_stays. by left.
Qed.

(** C8.  A trace holds at most one Release, and every Release carries the
    runner's resource.  A runner that is cancelled while it holds the lock
    has released nothing yet; it calls Release with that resource, then
    returns nil whatever Release answered, and does nothing afterwards, so
    that its trace holds exactly one Release. *)
Theorem cancel_while_holding_releases_once
        (c : C) l ttl clock interval (evs : list Event) :
  0 <= interval -> forallb forward evs = true ->
  let r := run_from (Run (NewLockRunner c l ttl clock interval)) evs in
  let req := mkReleaseRequest l in
  (count is_ActRelease (trace r) <= 1)%nat /\
  Forall (fun a => forall req' err, a = ActRelease req' err -> req' = req)
         (trace r) /\
  (phase r = Holding ->
   count is_ActRelease (trace r) = 0%nat /\
   let r' := step r Signal in
   let out := snd (snd (client_Release (locker r) req)) in
   trace r' = trace r ++ [ActRelease req out; ActExit None] /\
   count is_ActRelease (trace r') = 1%nat /\
   phase r' = Done /\ exited r' = Some None /\
   forall evs', run_from r' evs' = r').
Proof.
  intros Hpos Hfwd r req. subst req.
  assert (invariant l ttl interval r) as Hinv.
  { apply started_invariant. by exists c, clock, evs. }
  pose proof (release_request_started _ _ _ _ Hinv) as Hreq.
  destruct Hinv as (Hl & Httl & Hint & _ & Haddr & Hsucc & Hsig & Hphase).
  split; [|split].
  - destruct (phase r); destruct Hphase as (H1 & H2); lia.
  - eapply Forall_impl; [exact Haddr|]. cbn.
    intros a Ha req' err ->. cbn in Ha. by rewrite Ha, Hreq.
  - intros Ephase. rewrite Ephase in Hphase.
    destruct Hphase as (Hready & Hexit & Hrel & Hsleep).
    split; [done|]. intros r' out. subst r' out.
    unfold step. rewrite Ephase. unfold release. rewrite Hreq.
    destruct (client_Release (locker r) _) as [c' [resp e]]; cbn.
    rewrite <- app_assoc. split; [done|]. split.
    + rewrite count_app, Hrel. reflexivity.
    + repeat split. intros evs'. apply terminated_stays. by right.
Qed.

End RunnerFacts.

(** *** The runner's test, on the model *)

(** "locks the key". *)
Example test_locks_the_key :
  let r := background grants [] in
  ready r = true /\ LockCalls (locker r) = [expectedRequest].
Proof. vm_compute. auto. Qed.

(** "retries locking after the lock retry interval". *)
Example test_retries_locking_after_the_lock_retry_interval :
  LockCalls (locker (background refuses [])) = [expectedRequest] /\
  let r := background refuses [Advance lockRetryInterval] in
  LockCalls (locker r) = [expectedRequest; expectedRequest] /\
  ready r = false.
Proof. vm_compute. auto. Qed.

(** "grabs the lock and the continues to heartbeat", once the lock has
    become available. *)
Example test_grabs_the_lock_and_continues_to_heartbeat :
  ready (background (grants_after 1) []) = false /\
  let r := background (grants_after 1) [Advance lockRetryInterval] in
  ready r = true /\ length (LockCalls (locker r)) = 2%nat /\
  length (LockCalls (locker (step r (Advance lockRetryInterval)))) = 3%nat.
Proof. vm_compute. auto. Qed.

(** "exits with an error". *)
Example test_exits_with_an_error :
  let r := background (grants_until 1) [Advance lockRetryInterval] in
  ready r = true /\ length (LockCalls (locker r)) = 2%nat /\
  exited r = Some (Some no_lock_for_you).
Proof. vm_compute. auto. Qed.

(** "releases the lock". *)
Example test_releases_the_lock :
  let r := background grants [Signal] in
  ReleaseCalls (locker r) = [mkReleaseRequest expectedLock] /\
  exited r = Some None.
Proof. vm_compute. auto. Qed.


(** A locker that grants once: the first renewal is refused and ends the
    runner with the error of the renewal. *)
Lemma renewal_error_is_fatal_witness :
  0 <= lockRetryInterval /\
  let r := background (grants_until 1) [] in
  phase r = Holding /\
  exited (step r (Advance lockRetryInterval)) = Some (Some no_lock_for_you) /\
  run_from (step r (Advance lockRetryInterval))
           [Advance lockRetryInterval; Signal]
    = step r (Advance lockRetryInterval).
Proof.
  assert (0 <= lockRetryInterval) as Hpos by (vm_compute; discriminate).
  split; [exact Hpos|].
  pose proof (renewal_error_is_fatal
                (fakeLocker (grants_until 1)) expectedLock expectedTTL 0
                lockRetryInterval [] Hpos eq_refl eq_refl)
    as (_ & Hfatal).
  destruct (Hfatal lockRetryInterval no_lock_for_you Hpos eq_refl eq_refl)
    as (_ & _ & Hexit & _ & _ & Hstays).
  split; [reflexivity|]. split; [exact Hexit | exact (Hstays _)].
Defined.

(** A runner that holds the lock and is signalled. *)
Lemma cancel_while_holding_releases_once_witness :
  0 <= lockRetryInterval /\
  let r := background grants [] in
  phase r = Holding /\
  trace (step r Signal)
    = trace r ++ [ActRelease (mkReleaseRequest expectedLock) None;
                  ActExit None] /\
  count is_ActRelease (trace (step r Signal)) = 1%nat.
Proof.
  assert (0 <= lockRetryInterval) as Hpos by (vm_compute; discriminate).
  split; [exact Hpos|].
  pose proof (cancel_while_holding_releases_once
                (fakeLocker grants) expectedLock expectedTTL 0
                lockRetryInterval [] Hpos eq_refl)
    as (_ & _ & Hholding).
  destruct (Hholding eq_refl) as (_ & Htrace & Hcount & _).
  split; [reflexivity|]. split; [exact Htrace | exact Hcount].
Defined.

(* ===================================================================== *)
(** ** The handler: more of what it does and never does                   *)
(* ===================================================================== *)

Import calls.

Section HandlerMore.
Context {D P : Type} `{!db.LockDB D} `{!expiration.LockPick P}.
Implicit Types (h : locketHandler D P).

Lemma db_calls_app (l k : list Call) : db_calls (l ++ k) = db_calls l ++ db_calls k.
Proof. apply filter_app. Qed.

Lemma db_calls_cons (c : Call) (l : list Call) :
  db_calls (c :: l) = if is_db_call c then c :: db_calls l else db_calls l.
Proof.
  unfold db_calls. rewrite filter_cons.
  destruct (is_db_call c); [by rewrite decide_True | by rewrite decide_False].
Qed.

Lemma registrations_app (l k : list Call) :
  registrations (l ++ k) = registrations l ++ registrations k.
Proof. apply filter_app. Qed.

(** X1.  Release asks the store once, for the resource of the request as
    it came, and nothing else; it returns an empty response and no error
    exactly when the store returned no error. *)
Theorem Release_asks_the_store_once h (req : ReleaseRequest) :
  let '(d, err) := db.Release (db_ h) (ReleaseRequest_Resource req) in
  let '(result, h') := Release req h in
  calls h' = calls h ++ [CallDBRelease (ReleaseRequest_Resource req) err] /\
  db_ h' = d /\
  (result = Some (Some mkReleaseResponse, None) <-> err = None).
Proof.
  rewrite Release_unfold.
  destruct (db.Release (db_ h) _) as [d [e|]]; cbn; repeat split; try done.
Qed.

(** X3.  The scheduler is reached by an accepted Lock and by nothing else:
    Release, Fetch and FetchAll leave it as it is and call it never; Lock
    calls RegisterTTL once when its ttl is above zero and the store
    returned no error, and otherwise not at all. *)
Theorem scheduler_only_on_accepted_Lock h :
  (forall req : ReleaseRequest,
      lockPick (snd (Release req h)) = lockPick h /\
      registrations (calls (snd (Release req h))) = registrations (calls h))
  /\
  (forall req : FetchRequest,
      lockPick (snd (Fetch req h)) = lockPick h /\
      registrations (calls (snd (Fetch req h))) = registrations (calls h))
  /\
  (forall req : FetchAllRequest,
      lockPick (snd (FetchAll req h)) = lockPick h /\
      registrations (calls (snd (FetchAll req h))) = registrations (calls h))
  /\
  (forall req : LockRequest,
      let out := snd (db.Lock_ (db_ h) (LockRequest_Resource req)
                               (LockRequest_TtlInSeconds req)) in
      if (0 <? LockRequest_TtlInSeconds req) && bool_decide (snd out = None)
      then registrations (calls (snd (Lock req h)))
           = registrations (calls h) ++ [CallRegisterTTL (fst out)]
      else registrations (calls (snd (Lock req h))) = registrations (calls h)
           /\ lockPick (snd (Lock req h)) = lockPick h).
Proof.
  split; [|split; [|split]]; intros req.
  - rewrite Release_unfold. destruct (db.Release (db_ h) _) as [d e]; cbn.
    rewrite registrations_app. cbn. by rewrite app_nil_r.
  - rewrite Fetch_unfold. destruct (db.Fetch (db_ h) _) as [d out]; cbn.
    rewrite registrations_app. cbn. by rewrite app_nil_r.
  - rewrite FetchAll_unfold. destruct (db.FetchAll (db_ h)) as [d out]; cbn.
    rewrite registrations_app. cbn. by rewrite app_nil_r.
  - cbn zeta.
    destruct (Z_le_gt_dec (LockRequest_TtlInSeconds req) 0) as [Hle|Hgt].
    + assert ((0 <? LockRequest_TtlInSeconds req) = false) as ->
        by (apply Z.ltb_ge; lia).
      cbn [andb]. by rewrite Lock_invalid_ttl.
    + assert ((0 <? LockRequest_TtlInSeconds req) = true) as ->
        by (apply Z.ltb_lt; lia).
      cbn [andb]. rewrite Lock_valid_ttl by lia.
      destruct (db.Lock_ (db_ h) _ _) as [d [lk [e|]]]; cbn;
        rewrite !registrations_app; cbn; by rewrite ?app_nil_r.
Qed.

(** X4.  Every operation asks the store exactly once, except a Lock whose
    ttl is zero or less, which does not ask it at all. *)
Theorem one_store_call_per_request h :
  (forall req : LockRequest,
      length (db_calls (calls (snd (Lock req h))))
      = (if 0 <? LockRequest_TtlInSeconds req
         then S (length (db_calls (calls h)))
         else length (db_calls (calls h)))) /\
  (forall req : ReleaseRequest,
      length (db_calls (calls (snd (Release req h))))
      = S (length (db_calls (calls h)))) /\
  (forall req : FetchRequest,
      length (db_calls (calls (snd (Fetch req h))))
      = S (length (db_calls (calls h)))) /\
  (forall req : FetchAllRequest,
      length (db_calls (calls (snd (FetchAll req h))))
      = S (length (db_calls (calls h)))).
Proof.
  split; [|split; [|split]]; intros req.
  - destruct (Z_le_gt_dec (LockRequest_TtlInSeconds req) 0) as [Hle|Hgt].
    + assert ((0 <? LockRequest_TtlInSeconds req) = false) as ->
        by (apply Z.ltb_ge; lia).
      by rewrite Lock_invalid_ttl.
    + assert ((0 <? LockRequest_TtlInSeconds req) = true) as ->
        by (apply Z.ltb_lt; lia).
      rewrite Lock_valid_ttl by lia.
      destruct (db.Lock_ (db_ h) _ _) as [d [lk [e|]]]; cbn;
        rewrite !db_calls_app, !db_calls_cons, !length_app; cbn; lia.
  - rewrite Release_unfold. destruct (db.Release (db_ h) _) as [d e]; cbn.
    rewrite db_calls_app, db_calls_cons, length_app. cbn. lia.
  - rewrite Fetch_unfold. destruct (db.Fetch (db_ h) _) as [d out]; cbn.
    rewrite db_calls_app, db_calls_cons, length_app. cbn. lia.
  - rewrite FetchAll_unfold. destruct (db.FetchAll (db_ h)) as [d out]; cbn.
    rewrite db_calls_app, db_calls_cons, length_app. cbn. lia.
Qed.

(** X5.  An operation that returns gives back a response or an error,
    never both and never neither. *)
Theorem response_or_error h :
  (forall (req : LockRequest) resp err,
      fst (Lock req h) = Some (resp, err) -> (is_Some resp <-> err = None)) /\
  (forall (req : ReleaseRequest) resp err,
      fst (Release req h) = Some (resp, err) -> (is_Some resp <-> err = None))
  /\
  (forall (req : FetchRequest) resp err,
      fst (Fetch req h) = Some (resp, err) -> (is_Some resp <-> err = None)) /\
  (forall (req : FetchAllRequest) resp err,
      fst (FetchAll req h) = Some (resp, err) ->
      (is_Some resp <-> err = None)).
Proof.
  assert (forall A (a : A) , is_Some (Some a) <-> @None models.error = None) as Hyes.
  { intros A a. split; [done | by eexists]. }
  assert (forall A e, is_Some (@None A) <-> Some e = @None models.error) as Hno.
  { intros A e. split; [by intros [? ?] | done]. }
  split; [|split; [|split]]; intros req resp err.
  - destruct (Z_le_gt_dec (LockRequest_TtlInSeconds req) 0) as [Hle|Hgt].
    + rewrite Lock_invalid_ttl by done. cbn. intros [= <- <-]. apply Hno.
    + rewrite Lock_valid_ttl by lia.
      destruct (db.Lock_ (db_ h) _ _) as [d [lk [e|]]]; cbn;
        intros [= <- <-]; [apply Hno | apply Hyes].
  - rewrite Release_unfold.
    destruct (db.Release (db_ h) _) as [d [e|]]; cbn;
      intros [= <- <-]; [apply Hno | apply Hyes].
  - rewrite Fetch_unfold.
    destruct (db.Fetch (db_ h) _) as [d [[lk|] [e|]]]; cbn;
      intros [= <- <-] || discriminate; try apply Hno; apply Hyes.
  - rewrite FetchAll_unfold.
    destruct (db.FetchAll (db_ h)) as [d [locks [e|]]]; cbn;
      [intros [= <- <-]; apply Hno|].
    destruct (collect locks []); [|discriminate].
    intros [= <- <-]; apply Hyes.
Qed.

(** X6.  The handler makes up no error but ErrInvalidTTL: an error it
    returns is the one the store returned to its call, or, for a Lock
    whose ttl is zero or less, ErrInvalidTTL. *)
Theorem errors_come_from_the_store h :
  (forall (req : LockRequest) resp e,
      fst (Lock req h) = Some (resp, Some e) ->
      (LockRequest_TtlInSeconds req <= 0 /\ e = ErrInvalidTTL) \/
      (0 < LockRequest_TtlInSeconds req /\
       snd (snd (db.Lock_ (db_ h) (LockRequest_Resource req)
                          (LockRequest_TtlInSeconds req))) = Some e)) /\
  (forall (req : ReleaseRequest) resp e,
      fst (Release req h) = Some (resp, Some e) ->
      snd (db.Release (db_ h) (ReleaseRequest_Resource req)) = Some e) /\
  (forall (req : FetchRequest) resp e,
      fst (Fetch req h) = Some (resp, Some e) ->
      snd (snd (db.Fetch (db_ h) (FetchRequest_Key req))) = Some e) /\
  (forall (req : FetchAllRequest) resp e,
      fst (FetchAll req h) = Some (resp, Some e) ->
      snd (snd (db.FetchAll (db_ h))) = Some e).
Proof.
  split; [|split; [|split]]; intros req resp e.
  - destruct (Z_le_gt_dec (LockRequest_TtlInSeconds req) 0) as [Hle|Hgt].
    + rewrite Lock_invalid_ttl by done. cbn. intros [= _ <-]. by left.
    + rewrite Lock_valid_ttl by lia. right. split; [lia|].
      destruct (db.Lock_ (db_ h) _ _) as [d [lk [e'|]]]; cbn in *; congruence.
  - rewrite Release_unfold.
    destruct (db.Release (db_ h) _) as [d [e'|]]; cbn; congruence.
  - rewrite Fetch_unfold.
    destruct (db.Fetch (db_ h) _) as [d [[lk|] [e'|]]]; cbn; congruence.
  - rewrite FetchAll_unfold.
    destruct (db.FetchAll (db_ h)) as [d [locks [e'|]]]; cbn; [congruence|].
    destruct (collect locks []); congruence.
Qed.

End HandlerMore.

(** A Lock on the empty store, and a Release by another owner. *)
Lemma response_or_error_witness :
  fst (Lock (mkLockRequest (Some res_lock) 10) fresh)
    = Some (Some mkLockResponse, None) /\
  (is_Some (Some mkLockResponse) <-> @None models.error = None).
Proof.
  assert (fst (Lock (mkLockRequest (Some res_lock) 10) fresh)
          = Some (Some mkLockResponse, None)) as E by (vm_compute; reflexivity).
  split; [exact E|].
  destruct (response_or_error fresh) as (HL & _).
  exact (HL _ _ _ E).
Defined.

Lemma errors_come_from_the_store_witness :
  fst (Release (mkReleaseRequest (Some (mkResource "k1" "B" "" ""))) two_types)
    = Some (None, Some ErrNotOwner) /\
  snd (db.Release (db_ two_types) (Some (mkResource "k1" "B" "" "")))
    = Some ErrNotOwner.
Proof.
  assert (fst (Release (mkReleaseRequest (Some (mkResource "k1" "B" "" "")))
                       two_types)
          = Some (None, Some ErrNotOwner)) as E by (vm_compute; reflexivity).
  split; [exact E|].
  destruct (errors_come_from_the_store two_types) as (_ & HR & _).
  exact (HR _ _ _ E).
Defined.

(* ===================================================================== *)
(** ** The configuration file: keys, kinds, order and round trip          *)
(* ===================================================================== *)

Import marshal.

Section ConfigMore.
Context {Loggregator : Type}.
Variable zero_Loggregator : Loggregator.
Variable decode_Loggregator :
  JValue -> Loggregator -> Loggregator * option config.error.
Variable encode_Loggregator : Loggregator -> JValue.
Variable scan : string -> option JValue.
Variable equalFold : string -> string -> bool.
Variable DefaultLagerConfig : LagerConfig.

Abbreviation Cfg' := (@LocketConfig Loggregator).
Abbreviation field_of' := (field_of_key equalFold).
Abbreviation decode1' := (decode_field decode_Loggregator).
Abbreviation member1' := (decode_member decode_Loggregator equalFold).
Abbreviation assign1' := (assign decode_Loggregator).
Abbreviation members1' := (members_of equalFold).
Abbreviation accepted1' := (accepted decode_Loggregator).
Abbreviation Default' :=
  (DefaultLocketConfig zero_Loggregator DefaultLagerConfig).
Abbreviation New' :=
  (NewLocketConfig zero_Loggregator decode_Loggregator scan equalFold
                   DefaultLagerConfig).

(** X11.  No two fields of LocketConfig, the promoted fields of the
    embedded structs included, share the name of their JSON tag, and the
    name of its tag addresses each field whatever the comparison up to case
    says of other keys. *)
Theorem tags_are_unambiguous :
  NoDup (map json_name fields) /\
  (forall f, f ∈ fields /\ field_of' (json_name f) = Some f).
Proof.
  split.
  - apply (bool_decide_unpack (NoDup (map json_name fields))).
    vm_compute. exact I.
  - intros f. split; [|by destruct f].
    apply list_elem_of_In. destruct f; cbn; tauto.
Qed.

Lemma own_tag (f : Field) : field_of' (json_name f) = Some f.
Proof. by destruct f. Qed.

(** Two configurations with the same content in every field are equal. *)
Lemma config_ext (c1 c2 : Cfg') :
  (forall f, get f c1 = get f c2) -> c1 = c2.
Proof.
  intros Hget.
  destruct c1 as [a1 a2 a3 a4 a5 a6 a7 a8 a9 a10 a11 [a12] [a13]].
  destruct c2 as [b1 b2 b3 b4 b5 b6 b7 b8 b9 b10 b11 [b12] [b13]].
  pose proof (Hget FCaFile) as H1. pose proof (Hget FCertFile) as H2.
  pose proof (Hget FConsulCluster) as H3.
  pose proof (Hget FDatabaseConnectionString) as H4.
  pose proof (Hget FMaxOpenDatabaseConnections) as H5.
  pose proof (Hget FDatabaseDriver) as H6.
  pose proof (Hget FDropsondePort) as H7. pose proof (Hget FKeyFile) as H8.
  pose proof (Hget FListenAddress) as H9.
  pose proof (Hget FSQLCACertFile) as H10.
  pose proof (Hget FLoggregatorConfig) as H11.
  pose proof (Hget FDebugAddress) as H12. pose proof (Hget FLogLevel) as H13.
  cbn in *. congruence.
Qed.

(** The Go type of a field does not depend on what the struct holds. *)
Lemma get_kind (f : Field) (c1 c2 : Cfg') :
  same_kind (get f c1) (get f c2) = true.
Proof. by destruct f. Qed.

Lemma same_kind_trans (u v w : @FieldValue Loggregator) :
  same_kind u v = true -> same_kind v w = true -> same_kind u w = true.
Proof. by destruct u, v, w. Qed.

(** Whether a value of a plain Go type is refused depends on the field and
    on the value alone. *)
Lemma refused_error (f : Field) (v : JValue) (c : Cfg')
      (old : @FieldValue Loggregator) :
  refused f v = true -> same_kind (get f c) old = true ->
  snd (decode1' f v old) <> None.
Proof.
  unfold decode_field.
  destruct f, old as [s|z|l]; cbn; try discriminate; intros Href _;
    destruct v as [ | b | [z'|lit] | s' | items | members ]; cbn in *;
    try discriminate;
    destruct (int_ok z'); cbn in *; discriminate.
Qed.

(** An accepted list holds no refused value. *)
Lemma accepted_none_refused (f : Field) (vs : list JValue) (c : Cfg')
      (old : @FieldValue Loggregator) :
  same_kind (get f c) old = true ->
  accepted1' f vs old -> forall v, v ∈ vs -> refused f v = false.
Proof.
  revert old; induction vs as [|w vs IH]; intros old Hkind Hacc v Hin.
  - by apply not_elem_of_nil in Hin.
  - destruct Hacc as [Hw Hrest]. apply elem_of_cons in Hin as [->|Hin].
    + destruct (refused f w) eqn:Er; [|done].
      by destruct (refused_error f w c old Er Hkind).
    + apply (IH (assign1' f old w)); [|done..].
      eapply same_kind_trans; [exact Hkind|]. apply decode_field_kind.
Qed.

(** The converse of [fold_member_accepted]: a file all of whose members
    are accepted decodes without an error. *)
Lemma fold_member_ok (members : list (string * JValue)) (c : Cfg') :
  (forall g, accepted1' g (members1' g members) (get g c)) ->
  snd (fold_left member1' members (c, None)) = None.
Proof.
  revert c; induction members as [|m members IH]; intros c Hacc; [done|].
  cbn [fold_left].
  destruct (member1' (c, None) m) as [c' saved] eqn:Em.
  assert (saved = None) as ->.
  { unfold decode_member in Em.
    destruct (field_of' (fst m)) as [f|] eqn:Ef; [|congruence].
    specialize (Hacc f). unfold members_of in Hacc.
    rewrite filter_cons, decide_True in Hacc by done.
    destruct Hacc as [Hm _].
    destruct (decode1' f (snd m) (get f c)) as [v e]; cbn in *. congruence. }
  apply IH. intros g. specialize (Hacc g).
  pose proof (decode_member_get decode_Loggregator equalFold g c None m) as Hg.
  rewrite Em in Hg; cbn in Hg. rewrite Hg.
  unfold members_of in Hacc |- *. rewrite filter_cons in Hacc.
  case_bool_decide as Hf.
  - rewrite decide_True in Hacc by done. by destruct Hacc as [_ Hrest].
  - by rewrite decide_False in Hacc by done.
Qed.

Lemma fold_member_unknown (members : list (string * JValue))
      (st : Cfg' * option config.error) :
  (forall m, m ∈ members -> field_of' (fst m) = None) ->
  fold_left member1' members st = st.
Proof.
  revert st; induction members as [|m members IH]; intros [c saved] Hnone;
    [done|].
  cbn [fold_left]. unfold decode_member at 2.
  rewrite (Hnone m) by apply list_elem_of_here.
  apply IH. intros m' Hin. apply Hnone. by apply list_elem_of_further.
Qed.

(** X7.  A file whose object holds only keys that address no field is read
    as the default configuration, without an error. *)
Theorem unknown_keys_are_ignored (fs : FS) (configPath content : string)
        (members : list (string * JValue)) :
  fs !! configPath = Some (RegularFile content) ->
  scan content = Some (JObject members) ->
  (forall m, m ∈ members -> field_of' (fst m) = None) ->
  New' fs configPath = (Default', None).
Proof.
  intros Hfs Hscan Hnone.
  unfold NewLocketConfig, os_Open, Decode. rewrite Hfs; cbn. rewrite Hscan.
  cbn. unfold decode_object. by rewrite fold_member_unknown.
Qed.

(** X8.  One value of the wrong kind for a field of a plain Go type (a
    number, a boolean, an array or an object for a string field; anything
    but an integer in range for an int field) makes the whole file
    rejected: the result is the zero configuration with an error, whatever
    the other members of the file are. *)
Theorem wrong_kind_rejects_the_file (fs : FS) (configPath content : string)
        (members : list (string * JValue)) (key : string) (v : JValue)
        (f : Field) :
  fs !! configPath = Some (RegularFile content) ->
  scan content = Some (JObject members) ->
  (key, v) ∈ members -> field_of' key = Some f -> refused f v = true ->
  fst (New' fs configPath) = zero zero_Loggregator /\
  snd (New' fs configPath) <> None.
Proof.
  intros Hfs Hscan Hin Hf Href.
  unfold NewLocketConfig, os_Open, Decode. rewrite Hfs; cbn. rewrite Hscan.
  cbn. unfold decode_object.
  destruct (fold_left member1' members (Default', None)) as [c [e|]] eqn:Efold;
    [done|].
  exfalso.
  pose proof (fold_member_accepted decode_Loggregator equalFold f members
                Default') as Hacc.
  rewrite Efold in Hacc. specialize (Hacc eq_refl).
  assert (v ∈ members1' f members) as Hv.
  { unfold members_of. apply (list_elem_of_fmap_2 snd _ (key, v)).
    by apply list_elem_of_filter. }
  pose proof (accepted_none_refused f _ Default' _ (get_kind f _ _) Hacc v Hv).
  congruence.
Qed.

(** X10.  The order in which a file lists the keys of different fields
    does not matter: two files whose objects hold, for every field, the
    same values in the same order are read as the same configuration, and
    one is rejected exactly when the other is. *)
Theorem order_across_fields_is_irrelevant
        (fs : FS) (path1 path2 content1 content2 : string)
        (members1 members2 : list (string * JValue)) :
  fs !! path1 = Some (RegularFile content1) ->
  scan content1 = Some (JObject members1) ->
  fs !! path2 = Some (RegularFile content2) ->
  scan content2 = Some (JObject members2) ->
  (forall f, members1' f members1 = members1' f members2) ->
  fst (New' fs path1) = fst (New' fs path2) /\
  (snd (New' fs path1) = None <-> snd (New' fs path2) = None).
Proof.
  intros Hfs1 Hscan1 Hfs2 Hscan2 Hsame.
  unfold NewLocketConfig, os_Open, Decode.
  rewrite Hfs1, Hfs2; cbn. rewrite Hscan1, Hscan2. cbn. unfold decode_object.
  pose proof (fun g => fold_member_get decode_Loggregator equalFold g members1
                         Default' None) as Hget1.
  pose proof (fun g => fold_member_get decode_Loggregator equalFold g members2
                         Default' None) as Hget2.
  pose proof (fun g => fold_member_accepted decode_Loggregator equalFold g
                         members1 Default') as Hacc1.
  pose proof (fun g => fold_member_accepted decode_Loggregator equalFold g
                         members2 Default') as Hacc2.
  pose proof (fold_member_ok members1 Default') as Hok1.
  pose proof (fold_member_ok members2 Default') as Hok2.
  destruct (fold_left member1' members1 (Default', None)) as [c1 [e1|]];
    destruct (fold_left member1' members2 (Default', None)) as [c2 [e2|]];
    cbn in *.
  - done.
  - exfalso. assert (Some e1 = None) as Hbad; [|discriminate].
    apply Hok1. intros g. rewrite Hsame. by apply Hacc2.
  - exfalso. assert (Some e2 = None) as Hbad; [|discriminate].
    apply Hok2. intros g. rewrite <- Hsame. by apply Hacc1.
  - split; [|done]. apply config_ext. intros g.
    by rewrite Hget1, Hget2, Hsame.
Qed.

Abbreviation encode' := (encode encode_Loggregator).
Abbreviation Marshal' := (Marshal encode_Loggregator).
Abbreviation restore' := (restore DefaultLagerConfig).

(** The members of a serialized object that address a field. *)
Lemma members_of_tags (g : Field) (enc : Field -> JValue) (L : list Field) :
  members1' g (map (fun f => (json_name f, enc f)) L)
  = map enc (filter (fun f => f = g) L).
Proof.
  unfold members_of. induction L as [|x L IH]; [done|].
  cbn [map]. rewrite !filter_cons. cbn [fst]. rewrite own_tag.
  destruct (decide (x = g)) as [->|Hne].
  - rewrite decide_True by done. cbn. f_equal. exact IH.
  - rewrite decide_False by congruence. exact IH.
Qed.

Lemma filter_absent (g : Field) (keep : Field -> bool) (L : list Field) :
  g ∉ L -> filter (fun a => a = g /\ keep a = true) L = [].
Proof.
  induction L as [|x L IH]; intros Hout; [done|].
  apply not_elem_of_cons in Hout as [Hne Hout].
  rewrite filter_cons, decide_False by (intros [? _]; congruence).
  by apply IH.
Qed.

Lemma filter_own (g : Field) (keep : Field -> bool) (L : list Field) :
  NoDup L -> g ∈ L ->
  filter (fun f => f = g) (filter (fun f => keep f = true) L)
  = if keep g then [g] else [].
Proof.
  intros Hnodup Hin. rewrite list_filter_filter.
  induction L as [|x L IH]; [by apply not_elem_of_nil in Hin|].
  apply NoDup_cons in Hnodup as [Hx Hnodup]. rewrite filter_cons.
  destruct (decide (x = g)) as [->|Hne].
  - rewrite (filter_absent g keep L Hx).
    destruct (keep g); [by rewrite decide_True|].
    by rewrite decide_False by (intros [_ ?]; discriminate).
  - rewrite decide_False by tauto. apply IH; [done|].
    apply elem_of_cons in Hin as [->|]; done.
Qed.

Lemma members_of_Marshal (g : Field) (c : Cfg') :
  members1' g (object_members (Marshal' c))
  = if written c g then [encode' (get g c)] else [].
Proof.
  unfold Marshal; cbn [object_members].
  rewrite (members_of_tags g (fun f => encode' (get f c))).
  rewrite (filter_own g (written c)).
  - by destruct (written c g).
  - apply (bool_decide_unpack (NoDup fields)). vm_compute. exact I.
  - apply list_elem_of_In. destruct g; cbn; tauto.
Qed.

Lemma restore_get (g : Field) (c : Cfg') :
  get g (restore' c) = if written c g then get g c else get g Default'.
Proof.
  unfold written.
  destruct g; cbn; try reflexivity.
  - destruct (String.eqb (ConsulCluster c) "") eqn:E; [|done].
    apply String.eqb_eq in E. by rewrite E.
  - destruct (MaxOpenDatabaseConnections c =? 0) eqn:E; [|done].
    apply Z.eqb_eq in E. by rewrite E.
  - by destruct (String.eqb (DatabaseDriver c) "").
  - destruct (DropsondePort c =? 0) eqn:E; [|done].
    apply Z.eqb_eq in E. by rewrite E.
  - destruct (String.eqb (SQLCACertFile c) "") eqn:E; [|done].
    apply String.eqb_eq in E. by rewrite E.
  - by destruct (String.eqb (LogLevel (LagerConfig_ c)) "").
Qed.

(** Reading back what was written for one field. *)
Lemma decode_encode (g : Field) (c : Cfg') :
  (forall l, encode_Loggregator l <> JNull /\
             decode_Loggregator (encode_Loggregator l) zero_Loggregator
             = (l, None)) ->
  int_ok (MaxOpenDatabaseConnections c) = true ->
  int_ok (DropsondePort c) = true ->
  decode1' g (encode' (get g c)) (get g Default') = (get g c, None).
Proof.
  intros Hlog Hmax Hport. unfold decode_field.
  destruct g; cbn; rewrite ?Hmax, ?Hport; try reflexivity.
  destruct (Hlog (LoggregatorConfig c)) as [Hnull Hback].
  destruct (encode_Loggregator (LoggregatorConfig c)) eqn:E;
    try congruence; by rewrite Hback.
Qed.


End ConfigMore.

(** *** More files, on the model *)

(** A file of two keys that no field answers to. *)
Lemma unknown_keys_are_ignored_witness :
  more_fs !! "unknown-keys"%string = Some (RegularFile unknown_keys) /\
  more_NewLocketConfig more_fs "unknown-keys" = (test_DefaultLocketConfig, None).
Proof.
  assert (more_fs !! "unknown-keys"%string = Some (RegularFile unknown_keys))
    as Hfs by (vm_compute; reflexivity).
  split; [exact Hfs|].
  apply (unknown_keys_are_ignored
           tt (fun _ l => (l, None)) more_scan ascii_equalFold test_lager
           more_fs "unknown-keys" unknown_keys
           [ ("listen_port"%string, JNumber (NInt 9090));
             ("comment"%string, JString "staging") ] Hfs).
  - vm_compute. reflexivity.
  - intros m Hin. apply list_elem_of_In in Hin.
    destruct Hin as [<-|[<-|[]]]; vm_compute; reflexivity.
Defined.

(** A file that gives the driver as a number, after a good address. *)
Lemma wrong_kind_rejects_the_file_witness :
  refused FDatabaseDriver (JNumber (NInt 5)) = true /\
  fst (more_NewLocketConfig more_fs "bad-driver") = zero tt /\
  snd (more_NewLocketConfig more_fs "bad-driver") <> None.
Proof.
  split; [reflexivity|].
  apply (wrong_kind_rejects_the_file
           tt (fun _ l => (l, None)) more_scan ascii_equalFold test_lager
           more_fs "bad-driver" bad_driver
           [ ("listen_address"%string, JString "1.2.3.4:9090");
             ("database_driver"%string, JNumber (NInt 5)) ]
           "database_driver" (JNumber (NInt 5)) FDatabaseDriver).
  - vm_compute. reflexivity.
  - vm_compute. reflexivity.
  - apply list_elem_of_In. right; left; reflexivity.
  - vm_compute. reflexivity.
  - reflexivity.
Defined.

(** The two orders of an address and a driver. *)
Lemma order_across_fields_is_irrelevant_witness :
  fst (more_NewLocketConfig more_fs "address-driver")
    = fst (more_NewLocketConfig more_fs "driver-address") /\
  snd (more_NewLocketConfig more_fs "address-driver") = None /\
  DatabaseDriver (fst (more_NewLocketConfig more_fs "address-driver"))
    = "postgres"%string.
Proof.
  destruct (order_across_fields_is_irrelevant
              tt (fun _ l => (l, None)) more_scan ascii_equalFold test_lager
              more_fs "address-driver" "driver-address"
              address_then_driver driver_then_address
              [ ("listen_address"%string, JString "1.2.3.4:9090");
                ("database_driver"%string, JString "postgres") ]
              [ ("database_driver"%string, JString "postgres");
                ("listen_address"%string, JString "1.2.3.4:9090") ])
    as [Hsame _].
  - vm_compute. reflexivity.
  - vm_compute. reflexivity.
  - vm_compute. reflexivity.
  - vm_compute. reflexivity.
  - intros f. destruct f; vm_compute; reflexivity.
  - split; [exact Hsame|]. split; vm_compute; reflexivity.
Defined.


(* ===================================================================== *)
(** ** The lock runner: the heartbeat                                     *)
(* ===================================================================== *)

Section RunnerMore.
Context {C : Type} `{!LocketClient C}.


End RunnerMore.


(* ===================================================================== *)
(** ** The handler's log, with the lines of its collaborators             *)
(* ===================================================================== *)

Section LoggedHandler.
Context {D P : Type} `{!logged.LoggingDB D} `{!logged.LoggingPick P}.
Implicit Types (h : logged.locketHandler D P).

Abbreviation quiet_Lock :=
  (@handlers.Lock D P logged.quiet_db logged.quiet_pick).
Abbreviation quiet_Release :=
  (@handlers.Release D P logged.quiet_db).
Abbreviation quiet_Fetch :=
  (@handlers.Fetch D P logged.quiet_db).
Abbreviation quiet_FetchAll :=
  (@handlers.FetchAll D P logged.quiet_db).

(** Handing the logger on changes nothing to what an operation returns,
    nor to the store and the scheduler it leaves. *)
Lemma logged_operations_agree h :
  (forall req,
      fst (logged.Lock req h) = fst (quiet_Lock req (logged.quiet h)) /\
      logged.db_ (snd (logged.Lock req h))
        = db_ (snd (quiet_Lock req (logged.quiet h))) /\
      logged.lockPick (snd (logged.Lock req h))
        = lockPick (snd (quiet_Lock req (logged.quiet h)))) /\
  (forall req,
      fst (logged.Release req h) = fst (quiet_Release req (logged.quiet h)) /\
      logged.db_ (snd (logged.Release req h))
        = db_ (snd (quiet_Release req (logged.quiet h)))) /\
  (forall req,
      fst (logged.Fetch req h) = fst (quiet_Fetch req (logged.quiet h)) /\
      logged.db_ (snd (logged.Fetch req h))
        = db_ (snd (quiet_Fetch req (logged.quiet h)))) /\
  (forall req,
      fst (logged.FetchAll req h) = fst (quiet_FetchAll req (logged.quiet h))
      /\
      logged.db_ (snd (logged.FetchAll req h))
        = db_ (snd (quiet_FetchAll req (logged.quiet h)))).
Proof.
  split; [|split; [|split]]; intros req.
  - unfold logged.Lock, logged.bind, logged.defer, logged.Info, logged.ret,
      logged.db_Lock, logged.lockPick_RegisterTTL, logged.write.
    destruct (Z_le_gt_dec (LockRequest_TtlInSeconds req) 0) as [Hle|Hgt].
    + rewrite Lock_invalid_ttl by done. cbn.
      apply Z.leb_le in Hle. rewrite Hle. by cbn.
    + rewrite Lock_valid_ttl by lia. cbn.
      assert ((LockRequest_TtlInSeconds req <=? 0) = false) as ->
        by (apply Z.leb_gt; lia).
      cbn. destruct (logged.store_Lock _ _ _) as [[d msgs] [lk [e|]]]; cbn;
        [done|].
      by destruct (logged.pick_RegisterTTL _ _) as [p msgs'].
  - rewrite Release_unfold.
    unfold logged.Release, logged.bind, logged.defer, logged.Info, logged.ret,
      logged.db_Release, logged.write. cbn.
    by destruct (logged.store_Release _ _) as [[d msgs] [e|]].
  - rewrite Fetch_unfold.
    unfold logged.Fetch, logged.bind, logged.defer, logged.Info, logged.ret,
      logged.panic, logged.db_Fetch, logged.write. cbn.
    by destruct (logged.store_Fetch _ _) as [[d msgs] [[lk|] [e|]]].
  - rewrite FetchAll_unfold.
    unfold logged.FetchAll, logged.bind, logged.defer, logged.Info,
      logged.ret, logged.panic, logged.db_FetchAll, logged.write. cbn.
    destruct (logged.store_FetchAll _) as [[d msgs] [locks [e|]]]; cbn;
      [done|].
    by destruct (collect locks []).
Qed.

(** X2.  Every operation writes "started" to the log before anything else
    and "complete" after everything else, whether it returned a response,
    returned an error or panicked; both lines carry the session name of the
    operation and the request, under the key "req" for Lock and "request"
    for the others.  Between the two the log holds the lines the store
    wrote through the logger it was handed and, for an accepted Lock, those
    the scheduler wrote through the session logger, in that order, and no
    line of the handler; the lines that were there are kept. *)
Theorem operations_log_started_and_complete h :
  (forall req : LockRequest,
      logged.logger (snd (logged.Lock req h))
      = logged.logger h
        ++ [logged.Own (started "lock" ("req"%string, ReqLock req))]
        ++ logged.between_Lock req h
        ++ [logged.Own (complete "lock" ("req"%string, ReqLock req))] /\
      omap logged.own_line (logged.between_Lock req h) = [])
  /\
  (forall req : ReleaseRequest,
      logged.logger (snd (logged.Release req h))
      = logged.logger h
        ++ [logged.Own (started "release" ("request"%string, ReqRelease req))]
        ++ logged.between_Release req h
        ++ [logged.Own
              (complete "release" ("request"%string, ReqRelease req))] /\
      omap logged.own_line (logged.between_Release req h) = [])
  /\
  (forall req : FetchRequest,
      logged.logger (snd (logged.Fetch req h))
      = logged.logger h
        ++ [logged.Own (started "fetch" ("request"%string, ReqFetch req))]
        ++ logged.between_Fetch req h
        ++ [logged.Own (complete "fetch" ("request"%string, ReqFetch req))] /\
      omap logged.own_line (logged.between_Fetch req h) = [])
  /\
  (forall req : FetchAllRequest,
      logged.logger (snd (logged.FetchAll req h))
      = logged.logger h
        ++ [logged.Own
              (started "fetch-all" ("request"%string, ReqFetchAll req))]
        ++ logged.between_FetchAll h
        ++ [logged.Own
              (complete "fetch-all" ("request"%string, ReqFetchAll req))] /\
      omap logged.own_line (logged.between_FetchAll h) = []).
Proof.
  assert (forall msgs, omap logged.own_line (map logged.ByStore msgs) = [])
    as Hstore by (induction msgs; done).
  assert (forall s d msgs,
             omap logged.own_line (map (logged.ByScheduler s d) msgs) = [])
    as Hpick by (induction msgs; done).
  split; [|split; [|split]]; intros req.
  - unfold logged.Lock, logged.between_Lock, logged.bind, logged.defer,
      logged.Info, logged.ret, logged.db_Lock, logged.lockPick_RegisterTTL,
      logged.write, started, complete. cbn.
    destruct (LockRequest_TtlInSeconds req <=? 0); cbn.
    { by rewrite <- app_assoc. }
    destruct (logged.store_Lock _ _ _) as [[d msgs] [lk [e|]]]; cbn.
    + rewrite app_nil_r, <- !app_assoc. by rewrite Hstore.
    + destruct (logged.pick_RegisterTTL _ _) as [p msgs']; cbn.
      rewrite <- !app_assoc. split; [done|].
      by rewrite omap_app, Hstore, Hpick.
  - unfold logged.Release, logged.between_Release, logged.bind, logged.defer,
      logged.Info, logged.ret, logged.db_Release, logged.write, started,
      complete. cbn.
    destruct (logged.store_Release _ _) as [[d msgs] [e|]]; cbn;
      rewrite <- !app_assoc; by rewrite Hstore.
  - unfold logged.Fetch, logged.between_Fetch, logged.bind, logged.defer,
      logged.Info, logged.ret, logged.panic, logged.db_Fetch, logged.write,
      started, complete. cbn.
    destruct (logged.store_Fetch _ _) as [[d msgs] [[lk|] [e|]]]; cbn;
      rewrite <- !app_assoc; by rewrite Hstore.
  - unfold logged.FetchAll, logged.between_FetchAll, logged.bind,
      logged.defer, logged.Info, logged.ret, logged.panic, logged.db_FetchAll,
      logged.write, started, complete. cbn.
    destruct (logged.store_FetchAll _) as [[d msgs] [locks [e|]]]; cbn;
      [|destruct (collect locks [])]; cbn;
      rewrite <- !app_assoc; by rewrite Hstore.
Qed.

End LoggedHandler.

(** An accepted Lock on the empty store: the log of the whole operation. *)
Example log_of_an_accepted_Lock :
  logged.logger
    (snd (logged.Lock (mkLockRequest (Some res_lock) 10) logged.fresh))
  = [ logged.Own (started "lock"
        ("req"%string, ReqLock (mkLockRequest (Some res_lock) 10)));
      logged.ByStore "reserve"; logged.ByStore "reserved";
      logged.ByScheduler "lock"
        ("req"%string, ReqLock (mkLockRequest (Some res_lock) 10))
        "registering-ttl";
      logged.Own (complete "lock"
        ("req"%string, ReqLock (mkLockRequest (Some res_lock) 10))) ].
Proof. vm_compute. reflexivity. Qed.
